(** * PHP_Taint_Slice: the cross-file slicer [function_call_chain_slicer.py]

    A shallow embedding of the function locator, the call extractor, the
    source/sink scanner, the include resolver and the assembler in [main],
    followed by the properties of the specification that were checked
    against it.

    Conventions of the embedding.
    - A Python [str] is a [string]; a character is a code point below 256.
      File text is the text as Python hands it over: decoded, with the
      universal-newline translation already applied.
    - Python integers are [Z]; positions inside a string are [nat].
    - A [dict] is an association list in insertion order with unique keys.
    - The regular expressions written in the source are values of [Re.regex]
      and are run by a backtracking matcher that lists the successes in
      the priority order of Python's [re] module. *)

From Stdlib Require Import String Ascii List ZArith Lia Bool Arith DecimalString.
Import ListNotations.

Set Implicit Arguments.

(* ------------------------------------------------------------------------- *)
(** ** Characters and strings *)

Module Str.

Definition chars (s : string) : list ascii := list_ascii_of_string s.
Definition of_chars (l : list ascii) : string := string_of_list_ascii l.

Definition code (c : ascii) : nat := nat_of_ascii c.

Definition between (lo hi n : nat) : bool := (lo <=? n) && (n <=? hi).

(** [str.isspace] and the class [\s] of a [str] pattern, below code point
    256: TAB..CR, FS..US, SPACE, NEL and NBSP. *)
Definition is_space (c : ascii) : bool :=
  let n := code c in
  between 9 13 n || between 28 32 n || (n =? 133) || (n =? 160).

Definition lower (c : ascii) : ascii :=
  let n := code c in
  if between 65 90 n then ascii_of_nat (n + 32) else c.

Definition upper (c : ascii) : ascii :=
  let n := code c in
  if between 97 122 n then ascii_of_nat (n - 32) else c.

Fixpoint dropwhile (p : ascii -> bool) (l : list ascii) : list ascii :=
  match l with
  | c :: l' => if p c then dropwhile p l' else l
  | [] => []
  end.

Definition lstrip_chars (l : list ascii) : list ascii := dropwhile is_space l.
Definition rstrip_chars (l : list ascii) : list ascii :=
  rev (dropwhile is_space (rev l)).

(** [s.strip()] *)
Definition strip (s : string) : string :=
  of_chars (rstrip_chars (lstrip_chars (chars s))).

(** [s.startswith(p)] *)
Definition startswith (s p : string) : bool := String.prefix p s.

Fixpoint prefix_chars (p l : list ascii) : bool :=
  match p, l with
  | [], _ => true
  | a :: p', b :: l' => Ascii.eqb a b && prefix_chars p' l'
  | _ :: _, [] => false
  end.

(** [s.endswith(p)] *)
Definition endswith (s p : string) : bool :=
  prefix_chars (rev (chars p)) (rev (chars s)).

(** Python truthiness of a string. *)
Definition nonempty (s : string) : bool :=
  match s with EmptyString => false | String _ _ => true end.

Definition newline : ascii := ascii_of_nat 10.

(** [f.readlines()]: the text cut after every newline, the newline kept. *)
Fixpoint split_lines (cur : list ascii) (l : list ascii) : list string :=
  match l with
  | [] => match cur with [] => [] | _ :: _ => [of_chars (rev cur)] end
  | c :: l' =>
      if Ascii.eqb c newline
      then of_chars (rev (c :: cur)) :: split_lines [] l'
      else split_lines (c :: cur) l'
  end.

Definition readlines (text : string) : list string := split_lines [] (chars text).

(** [x in l] for a list of strings. *)
Definition mem (x : string) (l : list string) : bool :=
  existsb (String.eqb x) l.

End Str.

(* ------------------------------------------------------------------------- *)
(** ** Regular expressions of the source, with Python's matching order *)

Module Re.

(** Character classes. *)
Inductive cls : Type :=
| Ch (c : ascii)            (* one literal character *)
| Rng (lo hi : ascii)       (* lo-hi inside a set *)
| Space                     (* \s *)
| Or (a b : cls)            (* members of one set *)
| Neg (a : cls).            (* [^...] *)

Definition in_rng (lo hi x : ascii) : bool :=
  Str.between (Str.code lo) (Str.code hi) (Str.code x).

(** [ic] is the flag [re.IGNORECASE]. *)
Fixpoint cls_match (ic : bool) (c : cls) (x : ascii) : bool :=
  match c with
  | Ch a => if ic then Ascii.eqb (Str.lower x) (Str.lower a) else Ascii.eqb x a
  | Rng lo hi =>
      in_rng lo hi x
      || (ic && (in_rng lo hi (Str.lower x) || in_rng lo hi (Str.upper x)))
  | Space => Str.is_space x
  | Or a b => cls_match ic a x || cls_match ic b x
  | Neg a => negb (cls_match ic a x)
  end.

(** The fragment of the [re] syntax the source uses.  Repetition is only
    ever applied to a single character class there. *)
Inductive regex : Type :=
| Eps                       (* the empty pattern *)
| Bol                       (* ^ *)
| Cls (c : cls)
| Seq (r1 r2 : regex)
| Alt (r1 r2 : regex)       (* r1|r2 *)
| Star (c : cls)            (* c*, greedy *)
| Grp (r : regex).          (* ( ... ), the capturing group *)

Definition Plus (c : cls) : regex := Seq (Cls c) (Star c).   (* c+ *)
Definition Opt (r : regex) : regex := Alt r Eps.             (* r?  *)

Fixpoint Lit (s : string) : regex :=
  match s with
  | EmptyString => Eps
  | String c s' => Seq (Cls (Ch c)) (Lit s')
  end.

Fixpoint cat (rs : list regex) : regex :=
  match rs with
  | [] => Eps
  | [r] => r
  | r :: rs' => Seq r (cat rs')
  end.

(** One way of matching: the characters consumed, the text of group 1 when
    the group took part, and the text left. *)
Record mres : Type := MRes {
  consumed : list ascii;
  group : option (list ascii);
  rest : list ascii
}.

Definition is_nil (l : list ascii) : bool :=
  match l with [] => true | _ :: _ => false end.

Definition later_group (g2 g1 : option (list ascii)) : option (list ascii) :=
  match g2 with Some _ => g2 | None => g1 end.

(** All ways [c*] matches a prefix of [s], longest first. *)
Fixpoint star_ms (p : ascii -> bool) (s : list ascii) : list (list ascii * list ascii) :=
  match s with
  | x :: s' =>
      if p x
      then map (fun mr => (x :: fst mr, snd mr)) (star_ms p s') ++ [([], s)]
      else [([], s)]
  | [] => [([], [])]
  end.

(** All ways [r] matches a prefix of [s], in the order in which the
    backtracking matcher of [re] tries them; [bol] tells whether [s] starts
    at the beginning of the subject. *)
Fixpoint ms (ic : bool) (r : regex) (bol : bool) (s : list ascii) : list mres :=
  match r with
  | Eps => [MRes [] None s]
  | Bol => if bol then [MRes [] None s] else []
  | Cls c =>
      match s with
      | x :: s' => if cls_match ic c x then [MRes [x] None s'] else []
      | [] => []
      end
  | Seq r1 r2 =>
      flat_map
        (fun m1 =>
           map (fun m2 => MRes (consumed m1 ++ consumed m2)
                               (later_group (group m2) (group m1))
                               (rest m2))
               (ms ic r2 (bol && is_nil (consumed m1)) (rest m1)))
        (ms ic r1 bol s)
  | Alt r1 r2 => ms ic r1 bol s ++ ms ic r2 bol s
  | Star c => map (fun mr => MRes (fst mr) None (snd mr)) (star_ms (cls_match ic c) s)
  | Grp r1 => map (fun m => MRes (consumed m) (Some (consumed m)) (rest m)) (ms ic r1 bol s)
  end.

(** The match the engine reports at one position: the first success. *)
Definition match_at (ic : bool) (r : regex) (bol : bool) (s : list ascii) : option mres :=
  hd_error (ms ic r bol s).

(** [re.search]: the leftmost position with a match. *)
Fixpoint search_from (ic : bool) (r : regex) (bol : bool) (s : list ascii) : option mres :=
  match match_at ic r bol s with
  | Some m => Some m
  | None =>
      match s with
      | [] => None
      | _ :: s' => search_from ic r false s'
      end
  end.

(** [re.finditer]: leftmost matches that do not overlap.  [skip] counts the
    characters still covered by the previous match. *)
Fixpoint finditer_from (ic : bool) (r : regex) (bol : bool) (skip : nat)
         (s : list ascii) : list mres :=
  match s with
  | [] =>
      match skip with
      | O => match match_at ic r bol [] with Some m => [m] | None => [] end
      | S _ => []
      end
  | _ :: s' =>
      match skip with
      | S n => finditer_from ic r false n s'
      | O =>
          match match_at ic r bol s with
          | Some m => m :: finditer_from ic r false (pred (length (consumed m))) s'
          | None => finditer_from ic r false 0 s'
          end
      end
  end.

(** [m.group(1)] *)
Definition group1 (m : mres) : option string :=
  option_map Str.of_chars (group m).

Definition search (ic : bool) (r : regex) (s : string) : option mres :=
  search_from ic r true (Str.chars s).

Definition finditer (ic : bool) (r : regex) (s : string) : list mres :=
  finditer_from ic r true 0 (Str.chars s).

(** [re.findall] for a pattern with one group: the texts of group 1
    (the group takes part in every match of the patterns used here; a
    group that did not take part would give the empty string). *)
Definition findall (ic : bool) (r : regex) (s : string) : list string :=
  map (fun m => match group1 m with Some g => g | None => EmptyString end)
      (finditer ic r s).

(** Shorthands for the sets written in the source. *)
Definition c_ (s : string) : ascii :=
  match s with String c _ => c | EmptyString => Ascii.zero end.

Definition az : cls := Rng (c_ "a") (c_ "z").
Definition AZ : cls := Rng (c_ "A") (c_ "Z").
Definition d09 : cls := Rng (c_ "0") (c_ "9").
Definition us : cls := Ch (c_ "_").

(** The sets a-zA-Z_ and a-zA-Z0-9_ *)
Definition id_start : cls := Or az (Or AZ us).
Definition id_char : cls := Or az (Or AZ (Or d09 us)).

(** The captured identifier: a character of [id_start], then any number
    of characters of [id_char]. *)
Definition ident : regex := Grp (Seq (Cls id_start) (Star id_char)).

End Re.

(* ------------------------------------------------------------------------- *)
(** ** Exceptions, dictionaries and the world the program runs in *)

Inductive exn : Type :=
| OSError (what : string)            (* open, read, subprocess start *)
| RuntimeError (msg : string)
| UnboundLocalError (var : string)
| SystemExit (status : Z).

(** [isinstance(e, Exception)]: [SystemExit] derives from [BaseException]
    only. *)
Definition is_Exception (e : exn) : bool :=
  match e with
  | SystemExit _ => false
  | _ => true
  end.

(** A computation that returns or raises. *)
Inductive res (A : Type) : Type :=
| Ret (a : A)
| Raise (e : exn).
Arguments Ret {A} a.
Arguments Raise {A} e.

Definition bind {A B : Type} (m : res A) (k : A -> res B) : res B :=
  match m with
  | Ret a => k a
  | Raise e => Raise e
  end.

Declare Scope py_scope.
Delimit Scope py_scope with py.
Notation "x <- m ;; k" := (bind m (fun x => k))
  (at level 61, m at next level, right associativity) : py_scope.

(** [try: body  except Exception as e: handler e] *)
Definition try_except {A : Type} (body : res A) (handler : exn -> res A) : res A :=
  match body with
  | Ret a => Ret a
  | Raise e => if is_Exception e then handler e else Raise e
  end.

Module Dict.
Section Dict.
Variable V : Type.

Definition t : Type := list (string * V).

(** [d.get(k)] / [k in d] *)
Fixpoint lookup (k : string) (d : t) : option V :=
  match d with
  | [] => None
  | (k', v) :: d' => if String.eqb k k' then Some v else lookup k d'
  end.

Definition mem (k : string) (d : t) : bool :=
  match lookup k d with Some _ => true | None => false end.

(** [d[k] = v]: a present key keeps its place, a new key goes last. *)
Fixpoint set (k : string) (v : V) (d : t) : t :=
  match d with
  | [] => [(k, v)]
  | (k', v') :: d' =>
      if String.eqb k k' then (k', v) :: d' else (k', v') :: set k v d'
  end.

Definition keys (d : t) : list string := map fst d.
End Dict.

(** [d[k].append(x)] on a [defaultdict(list)]. *)
Fixpoint append (X : Type) (k : string) (x : X) (d : t (list X)) : t (list X) :=
  match d with
  | [] => [(k, [x])]
  | (k', xs) :: d' =>
      if String.eqb k k' then (k', xs ++ [x]) :: d' else (k', xs) :: append k x d'
  end.
End Dict.

(** [enumerate(l, n)] *)
Fixpoint enumerate (A : Type) (n : Z) (l : list A) : list (Z * A) :=
  match l with
  | [] => []
  | a :: l' => (n, a) :: enumerate (n + 1) l'
  end.

(** [len(l)] *)
Definition len (A : Type) (l : list A) : Z := Z.of_nat (length l).

(** What the program sees of the project tree below [--src].  Paths are
    the strings the program builds; [open_at p] and [exists_at p] stand for
    [open(os.path.join(src, p))] and [os.path.exists(os.path.join(src, p))]. *)
Record Tree : Type := {
  walk : list (string * string);      (* os.walk(src): (directory relative to src, file name), in order *)
  open_at : string -> option string;  (* the text read, or None when open/read raises *)
  exists_at : string -> bool
}.

(** [os.path.relpath(os.path.join(root, file), src_dir)] for an entry of
    the walk. *)
Definition rel_path (e : string * string) : string :=
  match fst e with
  | EmptyString => snd e
  | d => (d ++ "/" ++ snd e)%string
  end.

Definition py_open (t : Tree) (p : string) : res string :=
  match open_at t p with
  | Some text => Ret text
  | None => Raise (OSError p)
  end.

(** The [.php] files of the walk, as relative paths, in order. *)
Definition php_files (t : Tree) : list string :=
  map rel_path (filter (fun e => Str.endswith (snd e) ".php") (walk t)).

(* ------------------------------------------------------------------------- *)
(** ** Function locator *)

Import Re.

(** [^\s*(?:public|private|protected)?\s*function\s+(ident)\s*\(] *)
Definition func_pattern : regex :=
  cat [ Bol; Star Space;
        Opt (Alt (Lit "public") (Alt (Lit "private") (Lit "protected")));
        Star Space; Lit "function"; Plus Space; ident; Star Space;
        Cls (Ch (c_ "(")) ].

(** [func_pattern.search(code_line)], compiled with [re.IGNORECASE]. *)
Definition func_search (code_line : string) : option mres :=
  search true func_pattern code_line.

(** Truthiness of [current_func] and of [func_start]. *)
Definition truthy_name (n : option string) : bool :=
  match n with Some s => Str.nonempty s | None => false end.
Definition truthy_int (n : option Z) : bool :=
  match n with Some z => negb (z =? 0)%Z | None => false end.

Definition span : Type := (string * Z * Z)%type.

(** The [for] loop of [find_function_at_line] over the lines still to be
    read: [inl] is the [return] inside the loop, [inr] the values of
    [current_func] and [func_start] when the loop runs out. *)
Fixpoint locate_loop (lines : list string) (line_num : Z)
         (current_func : option string) (func_start : option Z) (line : Z)
  : span + (option string * option Z) :=
  match lines with
  | [] => inr (current_func, func_start)
  | code_line :: lines' =>
      match func_search code_line with
      | Some m =>
          match current_func, func_start with
          | Some f, Some s =>
              if truthy_name current_func && truthy_int func_start
                 && (s <=? line)%Z && (line <=? line_num - 1)%Z
              then inl (f, s, (line_num - 1)%Z)
              else locate_loop lines' (line_num + 1) (group1 m) (Some line_num) line
          | _, _ => locate_loop lines' (line_num + 1) (group1 m) (Some line_num) line
          end
      | None => locate_loop lines' (line_num + 1) current_func func_start line
      end
  end.

(** The body of [find_function_at_line] once the lines are read. *)
Definition locate_lines (lines : list string) (line : Z) : span :=
  match locate_loop lines 1 None None line with
  | inl sp => sp
  | inr (Some f, Some s) =>
      if truthy_name (Some f) && truthy_int (Some s)
         && (s <=? line)%Z && (line <=? len lines)%Z
      then (f, s, len lines)
      else ("global"%string, 1%Z, len lines)
  | inr _ => ("global"%string, 1%Z, len lines)
  end.

(** [find_function_at_line(file_path, line)]; [None] is the triple
    [(None, None, None)]. *)
Definition find_function_at_line (t : Tree) (file_path : string) (line : Z)
  : res (option span) :=
  if negb (exists_at t file_path) then Ret None
  else
    try_except
      (text <- py_open t file_path ;;
       Ret (Some (locate_lines (Str.readlines text) line)))%py
      (fun _ => Ret None).

(* ------------------------------------------------------------------------- *)
(** ** Call extractor, function index and call graph *)

Record Call : Type := {
  call_function : string;
  call_line : Z;
  call_code : string
}.

Definition call_tail : list regex := [ident; Star Space; Cls (Ch (c_ "("))].

(** The four entries of [call_patterns], in the order of the source. *)
Definition free_call : regex := cat call_tail.
Definition variable_call : regex := cat (Cls (Ch (c_ "$")) :: call_tail).
Definition member_call : regex := cat (Lit "->" :: call_tail).
Definition static_call : regex := cat (Lit "::" :: call_tail).

Definition call_patterns : list regex :=
  [free_call; variable_call; member_call; static_call].

Definition keywords : list string :=
  ["if"; "while"; "for"; "foreach"; "switch"; "echo"; "print"]%string.

(** [m.group(1)] read as a string (group 1 takes part in every match of
    the patterns of the source, see [group_takes_part]). *)
Definition group1_str (m : mres) : string :=
  match group1 m with Some g => g | None => EmptyString end.

(** The records one pattern adds for one line. *)
Definition calls_of_pattern (line_num : Z) (line_content : string) (pattern : regex)
  : list Call :=
  flat_map
    (fun m =>
       let func_name := group1_str m in
       if negb (Str.mem func_name keywords)
       then [ {| call_function := func_name;
                 call_line := line_num;
                 call_code := Str.strip line_content |} ]
       else [])
    (finditer false pattern line_content).

Definition calls_of_line (nl : Z * string) : list Call :=
  flat_map (calls_of_pattern (fst nl) (snd nl)) call_patterns.

Definition calls_of_lines (lines : list string) : list Call :=
  flat_map calls_of_line (enumerate 1 lines).

(** [extract_function_calls(file_path)] *)
Definition extract_function_calls (t : Tree) (file_path : string) : res (list Call) :=
  if negb (exists_at t file_path) then Ret []
  else
    try_except
      (text <- py_open t file_path ;;
       Ret (calls_of_lines (Str.readlines text)))%py
      (fun _ => Ret []).

Record Definition_ : Type := {
  def_file : string;
  def_line : Z;
  def_code : string
}.

Record CallSite : Type := {
  site_function : string;
  site_line : Z;
  site_code : string;
  caller_file : string
}.

(** [try: lines = open(...).readlines()  except Exception: continue]:
    [None] stands for the [continue]. *)
Definition try_readlines (t : Tree) (p : string) : res (option (list string)) :=
  try_except
    (text <- py_open t p ;; Ret (Some (Str.readlines text)))%py
    (fun _ => Ret None).

(** A [for] loop whose body may raise. *)
Fixpoint for_each (A S : Type) (l : list A) (body : S -> A -> res S) (s : S) : res S :=
  match l with
  | [] => Ret s
  | a :: l' => (s' <- body s a ;; for_each l' body s')%py
  end.

(** The definitions one file adds to the index. *)
Definition index_lines (rel : string) (lines : list string)
           (definitions : Dict.t (list Definition_)) : Dict.t (list Definition_) :=
  fold_left
    (fun defs nl =>
       match func_search (snd nl) with
       | Some m =>
           Dict.append (group1_str m)
             {| def_file := rel; def_line := fst nl; def_code := Str.strip (snd nl) |}
             defs
       | None => defs
       end)
    (enumerate 1 lines) definitions.

(** [find_function_definitions(src_dir)] *)
Definition find_function_definitions (t : Tree) : res (Dict.t (list Definition_)) :=
  for_each (php_files t)
    (fun definitions rel =>
       r <- try_readlines t rel ;;
       match r with
       | None => Ret definitions
       | Some lines => Ret (index_lines rel lines definitions)
       end)%py
    [].

Definition tag_call (rel : string) (c : Call) : CallSite :=
  {| site_function := call_function c;
     site_line := call_line c;
     site_code := call_code c;
     caller_file := rel |}.

(** [build_function_call_graph(src_dir)] *)
Definition build_function_call_graph (t : Tree) : res (Dict.t (list CallSite)) :=
  for_each (php_files t)
    (fun call_graph rel =>
       calls <- extract_function_calls t rel ;;
       Ret (fold_left
              (fun g call => Dict.append (call_function call) (tag_call rel call) g)
              calls call_graph))%py
    [].

(* ------------------------------------------------------------------------- *)
(** ** Paths: the functions of [os.path] the program calls (POSIX) *)

Module Path.

Definition slash : ascii := c_ "/".

Fixpoint split_on (sep : ascii) (cur : list ascii) (l : list ascii) : list (list ascii) :=
  match l with
  | [] => [rev cur]
  | c :: l' =>
      if Ascii.eqb c sep then rev cur :: split_on sep [] l'
      else split_on sep (c :: cur) l'
  end.

(** [p.split('/')] *)
Definition split (p : string) : list string :=
  map Str.of_chars (split_on slash [] (Str.chars p)).

(** ['/'.join(comps)] *)
Fixpoint join_comps (comps : list string) : string :=
  match comps with
  | [] => EmptyString
  | [c] => c
  | c :: cs => (c ++ "/" ++ join_comps cs)%string
  end.

(** [os.path.basename(p)]: what follows the last slash. *)
Definition basename (p : string) : string := last (split p) EmptyString.

Definition all_slashes (l : list ascii) : bool := forallb (Ascii.eqb slash) l.

(** [os.path.dirname(p)] *)
Definition dirname (p : string) : string :=
  let head := rev (Str.dropwhile (fun c => negb (Ascii.eqb c slash)) (rev (Str.chars p))) in
  if negb (is_nil head) && negb (all_slashes head)
  then Str.of_chars (rev (Str.dropwhile (Ascii.eqb slash) (rev head)))
  else Str.of_chars head.

(** [os.path.join(a, b)] *)
Definition join (a b : string) : string :=
  if Str.startswith b "/" then b
  else if negb (Str.nonempty a) || Str.endswith a "/" then (a ++ b)%string
  else (a ++ "/" ++ b)%string.

Definition is_nil_list (l : list string) : bool :=
  match l with [] => true | _ :: _ => false end.

(** The loop of [normpath] over the components; [new_comps] is kept with
    its last element first. *)
Fixpoint norm_comps (initial_slashes : nat) (comps : list string) (new_comps : list string)
  : list string :=
  match comps with
  | [] => rev new_comps
  | comp :: comps' =>
      if String.eqb comp EmptyString || String.eqb comp "." then
        norm_comps initial_slashes comps' new_comps
      else if negb (String.eqb comp "..")
              || ((initial_slashes =? 0) && is_nil_list new_comps)
              || match new_comps with
                 | top :: _ => String.eqb top ".."
                 | [] => false
                 end
      then norm_comps initial_slashes comps' (comp :: new_comps)
      else match new_comps with
           | _ :: popped => norm_comps initial_slashes comps' popped
           | [] => norm_comps initial_slashes comps' new_comps
           end
  end.

Definition slashes (n : nat) : string := Str.of_chars (repeat slash n).

(** [os.path.normpath(p)] *)
Definition normpath (p : string) : string :=
  if String.eqb p EmptyString then "."%string
  else
    let initial_slashes :=
      if Str.startswith p "/" then
        if Str.startswith p "//" && negb (Str.startswith p "///") then 2 else 1
      else 0 in
    let path := join_comps (norm_comps initial_slashes (split p) []) in
    let path := (slashes initial_slashes ++ path)%string in
    if Str.nonempty path then path else "."%string.

End Path.

(* ------------------------------------------------------------------------- *)
(** ** Include resolver *)

Definition dquote : ascii := ascii_of_nat 34.
Definition squote : ascii := ascii_of_nat 39.

(** The set of the two quote characters, and a quoted literal: one quote,
    the captured run of characters that are not quotes, one quote. *)
Definition quote : cls := Or (Ch squote) (Ch dquote).
Definition quoted : list regex := [Cls quote; Grp (Plus (Neg quote)); Cls quote].

(** The set of the bare form, a-zA-Z0-9_ with dash, dot and slash, and
    the captured bare path ending in [.php]. *)
Definition bare_char : cls :=
  Or az (Or AZ (Or d09 (Or us (Or (Ch (c_ "-")) (Or (Ch (c_ ".")) (Ch (c_ "/"))))))).
Definition bare : regex := Grp (Seq (Plus bare_char) (Lit ".php")).

(** keyword, optional space, parenthesis, optional space, quoted literal,
    optional space, parenthesis *)
Definition paren_form (kw : string) : regex :=
  cat ([Lit kw; Star Space; Cls (Ch (c_ "(")); Star Space] ++ quoted
       ++ [Star Space; Cls (Ch (c_ ")"))]).
(** keyword, space, quoted literal *)
Definition quoted_form (kw : string) : regex := cat ([Lit kw; Plus Space] ++ quoted).
(** keyword, space, bare path *)
Definition bare_form (kw : string) : regex := cat [Lit kw; Plus Space; bare].

Definition include_keywords : list string :=
  ["include"; "include_once"; "require"; "require_once"]%string.

(** [include_patterns], in the order of the source. *)
Definition include_patterns : list regex :=
  map paren_form include_keywords
  ++ map quoted_form include_keywords
  ++ map bare_form include_keywords.

(** The guard on a stripped match: not empty and not starting with a
    dollar sign. *)
Definition is_literal (included_file : string) : bool :=
  Str.nonempty included_file && negb (Str.startswith included_file "$").

(** The path an accepted literal is resolved to. *)
Definition resolve (rel : string) (included_file : string) : string :=
  if Str.startswith included_file "./" || Str.startswith included_file "../" then
    let base_dir := Path.dirname rel in
    Path.normpath (Path.join base_dir included_file)
  else if negb (Str.startswith included_file "/") then
    let base_dir := Path.dirname rel in
    Path.normpath (Path.join base_dir included_file)
  else included_file.

(** The string appended to [dependencies[rel_path]] for an accepted
    literal. *)
Definition edge_of (t : Tree) (rel : string) (included_file : string) : string :=
  let resolved := resolve rel included_file in
  if exists_at t resolved then resolved else included_file.

(** The two inner loops of [find_include_dependencies] on one file. *)
Definition include_edges_step (t : Tree) (rel : string)
           (dependencies : Dict.t (list string)) (m : string) : Dict.t (list string) :=
  let included_file := Str.strip m in
  if is_literal included_file
  then Dict.append rel (edge_of t rel included_file) dependencies
  else dependencies.

Definition include_edges (t : Tree) (rel : string) (content : string)
           (dependencies : Dict.t (list string)) : Dict.t (list string) :=
  fold_left
    (fun deps pattern =>
       fold_left (include_edges_step t rel) (findall true pattern content) deps)
    include_patterns dependencies.

(** [try: content = open(...).read()  except Exception: continue] *)
Definition try_read (t : Tree) (p : string) : res (option string) :=
  try_except (text <- py_open t p ;; Ret (Some text))%py (fun _ => Ret None).

(** [find_include_dependencies(src_dir)] *)
Definition find_include_dependencies (t : Tree) : res (Dict.t (list string)) :=
  for_each (php_files t)
    (fun dependencies rel =>
       r <- try_read t rel ;;
       match r with
       | None => Ret dependencies
       | Some content => Ret (include_edges t rel content dependencies)
       end)%py
    [].

(* ------------------------------------------------------------------------- *)
(** ** Source/sink scanner *)

Record PatternMatch : Type := {
  pm_line : Z;
  pm_code : string;
  pm_pattern : string;
  pm_file : option string     (* the key 'file', set by the project-wide scan only *)
}.

Section Scanner.

(** [re.search(pattern, line_content)] is not [None], for the patterns of
    the configuration (taken to be valid regular expressions). *)
Variable re_search : string -> string -> bool.

Definition pattern_match (file : option string) (line_num : Z)
           (line_content pattern : string) : PatternMatch :=
  {| pm_line := line_num;
     pm_code := Str.strip line_content;
     pm_pattern := pattern;
     pm_file := file |}.

(** [for pattern in patterns: if re.search(...): found.append({...})] *)
Definition scan_patterns (file : option string) (patterns : list string)
           (nl : Z * string) (found : list PatternMatch) : list PatternMatch :=
  fold_left
    (fun acc pattern =>
       if re_search pattern (snd nl)
       then acc ++ [pattern_match file (fst nl) (snd nl) pattern]
       else acc)
    patterns found.

(** The loop over the lines of one file; the state is the pair
    (sources found, sinks found). *)
Definition scan_lines (file : option string) (sources sinks : list string)
           (lines : list string) : list PatternMatch * list PatternMatch :=
  fold_left
    (fun acc nl =>
       (scan_patterns file sources nl (fst acc),
        scan_patterns file sinks nl (snd acc)))
    (enumerate 1 lines) ([], []).

(** [analyze_sources_sinks(file_path, sources, sinks)] *)
Definition analyze_sources_sinks (t : Tree) (file_path : string)
           (sources sinks : list string)
  : res (list PatternMatch * list PatternMatch) :=
  if negb (exists_at t file_path) then Ret ([], [])
  else
    try_except
      (text <- py_open t file_path ;;
       Ret (scan_lines None sources sinks (Str.readlines text)))%py
      (fun _ => Ret ([], [])).

Definition nonempty_list (A : Type) (l : list A) : bool :=
  match l with [] => false | _ :: _ => true end.

Definition scan_maps : Type :=
  (Dict.t (list PatternMatch) * Dict.t (list PatternMatch))%type.

(** The body of the walk of [analyze_sources_sinks_in_project] for one
    [.php] file. *)
Definition scan_file (t : Tree) (sources sinks : list string)
           (maps : scan_maps) (rel : string) : res scan_maps :=
  (r <- try_readlines t rel ;;
   match r with
   | None => Ret maps
   | Some lines =>
       let found := scan_lines (Some rel) sources sinks lines in
       let all_sources :=
         if nonempty_list (fst found) then Dict.set rel (fst found) (fst maps)
         else fst maps in
       let all_sinks :=
         if nonempty_list (snd found) then Dict.set rel (snd found) (snd maps)
         else snd maps in
       Ret (all_sources, all_sinks)
   end)%py.

(** [analyze_sources_sinks_in_project(src_dir, sources, sinks)] *)
Definition analyze_sources_sinks_in_project (t : Tree) (sources sinks : list string)
  : res scan_maps :=
  for_each (php_files t) (scan_file t sources sinks) ([], []).

End Scanner.

(* ------------------------------------------------------------------------- *)
(** ** The optional Joern analysis *)

Record Completed : Type := {
  returncode : Z;
  stdout_lines : list string;     (* result.stdout.splitlines() *)
  stderr : string
}.

(** What the program sees of the machine outside the project tree. *)
Record Host : Type := {
  getcwd : string;
  environ_JOERN_DIR : option string;
  isdir : string -> bool;
  os_exists : string -> bool;
  subprocess_run : list string -> res Completed
}.

(** [os.path.abspath(p)] *)
Definition abspath (h : Host) (p : string) : string :=
  if Str.startswith p "/" then Path.normpath p
  else Path.normpath (Path.join (getcwd h) p).

(** [detect_joern_dir()] *)
Definition detect_joern_dir (h : Host) : res string :=
  let candidates :=
    [ abspath h "./joern/joern-cli";
      match environ_JOERN_DIR h with Some d => d | None => EmptyString end;
      "/opt/joern"%string ] in
  match find (fun path => Str.nonempty path && isdir h path) candidates with
  | Some path => Ret path
  | None => Raise (RuntimeError "Joern directory not found")
  end.

(** [gen_cpg(src_dir, joern_dir)]; removing a stale CPG file leaves no
    trace in what the program returns and is not modelled. *)
Definition gen_cpg (h : Host) (src_dir joern_dir : string) : res string :=
  let php2cpg := Path.join joern_dir "php2cpg" in
  let cpg_file := "function_analysis.bin"%string in
  (result <- subprocess_run h [php2cpg; src_dir; "-o"%string; cpg_file] ;;
   if negb (returncode result =? 0)%Z
   then Raise (RuntimeError ("CPG generation failed: " ++ stderr result))
   else Ret cpg_file)%py.

(** [str(line)] *)
Definition str_of_Z (z : Z) : string :=
  DecimalString.NilZero.string_of_int (Z.to_int z).

(** [run_joern_slice(cpg_file, file_path, line, joern_dir)] *)
Definition run_joern_slice (h : Host) (cpg_file file_path : string) (line : Z)
           (joern_dir : string) : res (list string) :=
  let joern_slice := Path.join joern_dir "joern-slice" in
  if negb (os_exists h joern_slice) then Ret []
  else
    (result <- subprocess_run h
       [joern_slice; "usages"; cpg_file; "--file"; file_path; "--line"; str_of_Z line]%string ;;
     if negb (returncode result =? 0)%Z then Ret []
     else Ret (filter Str.nonempty (map Str.strip (stdout_lines result))))%py.

Record Args : Type := {
  arg_src : string;
  arg_file : string;
  arg_line : Z
}.

(** The local variables of [main] that step 3 may bind: [cpg_file] stays
    unbound ([None]) when the [try] block is left before its assignment. *)
Record JoernLocals : Type := {
  cpg_file : option string;
  joern_usages : list string
}.

(** The handler [except Exception as e: ...; joern_usages = []]. *)
Definition joern_failed (bound_cpg_file : option string) (e : exn) : res JoernLocals :=
  if is_Exception e
  then Ret {| cpg_file := bound_cpg_file; joern_usages := [] |}
  else Raise e.

(** Step 3 of [main]: the [try] block and its handler. *)
Definition joern_step (h : Host) (args : Args) : res JoernLocals :=
  match detect_joern_dir h with
  | Raise e => joern_failed None e
  | Ret joern_dir =>
      match gen_cpg h (arg_src args) joern_dir with
      | Raise e => joern_failed None e
      | Ret cpg =>
          match run_joern_slice h cpg (arg_file args) (arg_line args) joern_dir with
          | Raise e => joern_failed (Some cpg) e
          | Ret usages => Ret {| cpg_file := Some cpg; joern_usages := usages |}
          end
      end
  end.

(** [if os.path.exists(cpg_file): os.remove(cpg_file)] after the result is
    written: reading an unbound local raises. *)
Definition clean_up (locals : JoernLocals) : res unit :=
  match cpg_file locals with
  | None => Raise (UnboundLocalError "cpg_file")
  | Some _ => Ret tt
  end.

(* ------------------------------------------------------------------------- *)
(** ** Taint paths, function chains and [main] *)

Record TaintPath : Type := {
  source_file : string;
  source_line : Z;
  source_sources : list PatternMatch;
  sink_file : string;
  sink_line : Z;
  sink_code : string;
  connection_type : string;
  include_chain : list string
}.

Record TargetFunction : Type := {
  tf_name : string;
  tf_file : string;
  tf_start_line : Z;
  tf_end_line : Z;
  tf_sources : list PatternMatch;
  tf_sinks : list PatternMatch
}.

Record CalledFrom : Type := {
  cf_file : string;
  cf_line : Z;
  cf_code : string
}.

Record CallingFunction : Type := {
  cg_name : string;
  cg_file : string;
  cg_call_line : Z;
  cg_call_code : string
}.

Record CalledFunction : Type := {
  cd_name : string;
  cd_file : string;
  cd_definition_line : Z;
  cd_definition_code : string
}.

(** The two shapes of an entry of [function_chains]. *)
Inductive FunctionChain : Type :=
| ChainCalledFrom (target_function : TargetFunction) (called_from : CalledFrom)
| ChainCalls (calling_function : CallingFunction) (called_function : CalledFunction).

Record Target : Type := {
  t_file : string;
  t_line : Z;
  t_function : string;
  t_start_line : Z;
  t_end_line : Z
}.

Record Summary : Type := {
  total_chains : Z;
  n_cross_file_paths : Z;
  project_sources : Z;
  project_sinks : Z;
  n_target_sources : Z;
  n_target_sinks : Z;
  n_joern_usages : Z
}.

(** The document [main] writes to [--output]. *)
Record Result : Type := {
  r_target : Target;
  r_joern_usages : list string;
  r_function_chains : list FunctionChain;
  r_cross_file_taint_paths : list TaintPath;
  r_all_sources : Dict.t (list PatternMatch);
  r_all_sinks : Dict.t (list PatternMatch);
  r_include_dependencies : Dict.t (list string);
  r_sources_in_target : list PatternMatch;
  r_sinks_in_target : list PatternMatch;
  r_summary : Summary
}.

(** The test of step 8 on one entry [dep] of an include list. *)
Definition includes_target (file target_filename dep : string) : bool :=
  String.eqb file dep || String.eqb target_filename dep
  || String.eqb target_filename (Path.basename dep).

(** [files_including_target]: the inner loop stops at the first entry
    that passes the test. *)
Definition files_including (file : string) (include_deps : Dict.t (list string))
  : list string :=
  let target_filename := Path.basename file in
  flat_map
    (fun fd =>
       if existsb (includes_target file target_filename) (snd fd) then [fst fd] else [])
    include_deps.

Definition taint_path (args : Args) (target_sources : list PatternMatch)
           (including_file : string) (sink : PatternMatch) : TaintPath :=
  {| source_file := arg_file args;
     source_line := arg_line args;
     source_sources := target_sources;
     sink_file := including_file;
     sink_line := pm_line sink;
     sink_code := pm_code sink;
     connection_type := "include_dependency";
     include_chain := [arg_file args; including_file] |}.

(** Step 8: the paths for the including files that are keys of
    [all_sinks]. *)
Definition cross_file_paths_of (args : Args) (target_sources : list PatternMatch)
           (all_sinks : Dict.t (list PatternMatch))
           (files_including_target : list string) : list TaintPath :=
  if nonempty_list files_including_target then
    flat_map
      (fun including_file =>
         match Dict.lookup including_file all_sinks with
         | Some sinks => map (taint_path args target_sources including_file) sinks
         | None => []
         end)
      files_including_target
  else [].

Definition called_from_chain (args : Args) (sp : span)
           (target_sources target_sinks : list PatternMatch)
           (call_info : CallSite) : FunctionChain :=
  ChainCalledFrom
    {| tf_name := fst (fst sp);
       tf_file := arg_file args;
       tf_start_line := snd (fst sp);
       tf_end_line := snd sp;
       tf_sources := target_sources;
       tf_sinks := target_sinks |}
    {| cf_file := caller_file call_info;
       cf_line := site_line call_info;
       cf_code := site_code call_info |}.

(** Step 9, first loop. *)
Definition called_from_chains (args : Args) (sp : span)
           (target_sources target_sinks : list PatternMatch)
           (call_graph : Dict.t (list CallSite)) : list FunctionChain :=
  match Dict.lookup (fst (fst sp)) call_graph with
  | Some sites => map (called_from_chain args sp target_sources target_sinks) sites
  | None => []
  end.

Definition calls_chain (args : Args) (func_name : string) (call : Call)
           (definition : Definition_) : FunctionChain :=
  ChainCalls
    {| cg_name := func_name;
       cg_file := arg_file args;
       cg_call_line := call_line call;
       cg_call_code := call_code call |}
    {| cd_name := call_function call;
       cd_file := def_file definition;
       cd_definition_line := def_line definition;
       cd_definition_code := def_code definition |}.

(** Step 9, second loop. *)
Definition calls_chains (args : Args) (func_name : string)
           (function_defs : Dict.t (list Definition_))
           (target_calls : list Call) : list FunctionChain :=
  flat_map
    (fun call =>
       match Dict.lookup (call_function call) function_defs with
       | Some definitions => map (calls_chain args func_name call) definitions
       | None => []
       end)
    target_calls.

(** [sum(len(s) for s in d.values())] *)
Definition total (A : Type) (d : Dict.t (list A)) : Z :=
  fold_left (fun n kv => (n + len (snd kv))%Z) d 0%Z.

Section Main.

Variable re_search : string -> string -> bool.

(** [main] from step 2 to the writing of the result.  The patterns are
    the lists step 1 loaded; what is printed is left out; writing the
    document to [--output] is taken to succeed.  The value is the document
    written and the locals of step 3. *)
Definition main_steps (t : Tree) (h : Host) (args : Args)
           (sources sinks : list string) : res (Result * JoernLocals) :=
  (located <- find_function_at_line t (arg_file args) (arg_line args) ;;
   match located with
   | None => Raise (SystemExit 1)
   | Some sp =>
       let func_name := fst (fst sp) in
       if negb (Str.nonempty func_name) then Raise (SystemExit 1)
       else
         locals <- joern_step h args ;;
         function_defs <- find_function_definitions t ;;
         call_graph <- build_function_call_graph t ;;
         maps <- analyze_sources_sinks_in_project re_search t sources sinks ;;
         found <- analyze_sources_sinks re_search t (arg_file args) sources sinks ;;
         include_deps <- find_include_dependencies t ;;
         let all_sources := fst maps in
         let all_sinks := snd maps in
         let target_sources := fst found in
         let target_sinks := snd found in
         let files_including_target := files_including (arg_file args) include_deps in
         let cross_file_paths :=
           cross_file_paths_of args target_sources all_sinks files_including_target in
         target_calls <- extract_function_calls t (arg_file args) ;;
         let function_chains :=
           called_from_chains args sp target_sources target_sinks call_graph
           ++ calls_chains args func_name function_defs target_calls in
         Ret ({| r_target :=
                   {| t_file := arg_file args;
                      t_line := arg_line args;
                      t_function := func_name;
                      t_start_line := snd (fst sp);
                      t_end_line := snd sp |};
                 r_joern_usages := joern_usages locals;
                 r_function_chains := function_chains;
                 r_cross_file_taint_paths := cross_file_paths;
                 r_all_sources := all_sources;
                 r_all_sinks := all_sinks;
                 r_include_dependencies := include_deps;
                 r_sources_in_target := target_sources;
                 r_sinks_in_target := target_sinks;
                 r_summary :=
                   {| total_chains := len function_chains;
                      n_cross_file_paths := len cross_file_paths;
                      project_sources := total all_sources;
                      project_sinks := total all_sinks;
                      n_target_sources := len target_sources;
                      n_target_sinks := len target_sinks;
                      n_joern_usages := len (joern_usages locals) |} |},
              locals)
   end)%py.

(** One run: the document written to [--output], if the run got that
    far, and the way [main] ended. *)
Record Run : Type := {
  written : option Result;
  outcome : res unit
}.

Definition main (t : Tree) (h : Host) (args : Args) (sources sinks : list string) : Run :=
  match main_steps t h args sources sinks with
  | Raise e => {| written := None; outcome := Raise e |}
  | Ret (doc, locals) => {| written := Some doc; outcome := clean_up locals |}
  end.

End Main.

(* ------------------------------------------------------------------------- *)

From Stdlib Require Import Sorted.

(* ------------------------------------------------------------------------- *)
(** ** Pattern loading: [load_patterns_from_file] and [load_yaml_config] *)

(** A value as [yaml.safe_load] returns it: scalars, sequences and
    mappings (keys are strings and occur once; other scalars behave like
    the ones listed). *)
Module Yaml.

#[warnings="-register-all"]
Inductive value : Type :=
| Null
| Bool (b : bool)
| Int (z : Z)
| Str (s : string)
| Seq (items : list value)
| Map (entries : list (string * value)).

(** Truthiness of a value. *)
Definition truthy (v : value) : bool :=
  match v with
  | Null => false
  | Bool b => b
  | Int z => negb (z =? 0)%Z
  | Str s => Str.nonempty s
  | Seq items => match items with [] => false | _ :: _ => true end
  | Map entries => match entries with [] => false | _ :: _ => true end
  end.

Definition is_str (key : string) (v : value) : bool :=
  match v with Str s => String.eqb s key | _ => false end.

Definition substring (key s : string) : bool :=
  match String.index 0 key s with Some _ => true | None => false end.

(** The operations [load_yaml_config] applies to the parsed value; [None]
    stands for the exception Python raises (TypeError, AttributeError or
    KeyError, all caught by [except Exception]). *)

(** [key in v] *)
Definition contains (key : string) (v : value) : option bool :=
  match v with
  | Map entries => Some (Dict.mem key entries)
  | Seq items => Some (existsb (is_str key) items)
  | Str s => Some (substring key s)
  | Null | Bool _ | Int _ => None
  end.

(** [v[key]] for a string key *)
Definition getitem (v : value) (key : string) : option value :=
  match v with
  | Map entries => Dict.lookup key entries
  | _ => None
  end.

(** [v.values()] *)
Definition values (v : value) : option (list value) :=
  match v with
  | Map entries => Some (map snd entries)
  | _ => None
  end.

(** [for x in v] *)
Definition iterate (v : value) : option (list value) :=
  match v with
  | Seq items => Some items
  | Map entries => Some (map (fun kv => Str (fst kv)) entries)
  | Str s => Some (map (fun c => Str (String c EmptyString)) (Str.chars s))
  | Null | Bool _ | Int _ => None
  end.

(** [v.get(key, default)] *)
Definition get (v : value) (key : string) (default : value) : option value :=
  match v with
  | Map entries =>
      Some (match Dict.lookup key entries with Some x => x | None => default end)
  | _ => None
  end.

End Yaml.

Definition obind {A B : Type} (m : option A) (k : A -> option B) : option B :=
  match m with
  | Some a => k a
  | None => None
  end.

Declare Scope try_scope.
Delimit Scope try_scope with try.
Notation "x <-- m ;; k" := (obind m (fun x => k))
  (at level 61, m at next level, right associativity) : try_scope.

(** A [for] loop inside a [try] block. *)
Fixpoint ofor (A S : Type) (l : list A) (body : S -> A -> option S) (s : S) : option S :=
  match l with
  | [] => Some s
  | a :: l' => (s' <-- body s a ;; ofor l' body s')%try
  end.

(** What the program sees of the files named on the command line.
    [read_lines p] gives the lines the iteration [for line in f] yields
    and, when it comes to that, the exception that ends it (raised by
    [open] before any line, or while reading). *)
Record Disk : Type := {
  path_exists : string -> bool;                    (* os.path.exists *)
  read_lines : string -> list string * option exn;
  safe_load : string -> option Yaml.value          (* open and yaml.safe_load; None when they raise *)
}.

(** The patterns of one section ([sources] or [sinks]) of the
    configuration: the loops of [load_yaml_config] for that key. *)
Definition item_step (acc : list Yaml.value) (item : Yaml.value) : option (list Yaml.value) :=
  (enabled <-- Yaml.get item "enabled" (Yaml.Bool false) ;;
   if Yaml.truthy enabled
   then pattern <-- Yaml.getitem item "pattern" ;; Some (acc ++ [pattern])
   else Some acc)%try.

Definition category_step (acc : list Yaml.value) (category : Yaml.value)
  : option (list Yaml.value) :=
  (items <-- Yaml.iterate category ;; ofor items item_step acc)%try.

Definition section_patterns (config : Yaml.value) (key : string) : option (list Yaml.value) :=
  (present <-- Yaml.contains key config ;;
   if present
   then section <-- Yaml.getitem config key ;;
        categories <-- Yaml.values section ;;
        ofor categories category_step []
   else Some [])%try.

(** [load_yaml_config(config_file)] *)
Definition load_yaml_config (d : Disk) (config_file : string)
  : list Yaml.value * list Yaml.value :=
  if negb (path_exists d config_file) then ([], [])
  else
    match (config <-- safe_load d config_file ;;
           sources <-- section_patterns config "sources" ;;
           sinks <-- section_patterns config "sinks" ;;
           Some (sources, sinks))%try with
    | Some loaded => loaded
    | None => ([], [])
    end.

(** ['#' in line] *)
Definition has_hash (line : string) : bool :=
  existsb (Ascii.eqb (c_ "#")) (Str.chars line).

(** [line.split('#')[0]] *)
Definition before_hash (line : string) : string :=
  hd EmptyString (map Str.of_chars (Path.split_on (c_ "#") [] (Str.chars line))).

(** The body of the loop of [load_patterns_from_file] for one line. *)
Definition pattern_step (patterns : list string) (raw : string) : list string :=
  let line := Str.strip raw in
  if negb (Str.nonempty line) || Str.startswith line "#" then patterns
  else if has_hash line then
    let pattern := Str.strip (before_hash line) in
    if Str.nonempty pattern then patterns
    else if Str.nonempty pattern then patterns ++ [pattern] else patterns
  else
    let pattern := line in
    if Str.nonempty pattern then patterns ++ [pattern] else patterns.

(** [load_patterns_from_file(file_path)]: an exception inside the [try]
    block ends the loop and the patterns read so far are returned. *)
Definition load_patterns_from_file (d : Disk) (file_path : string) : res (list string) :=
  if negb (path_exists d file_path) then Ret []
  else
    let patterns := fold_left pattern_step (fst (read_lines d file_path)) [] in
    match snd (read_lines d file_path) with
    | None => Ret patterns
    | Some e => if is_Exception e then Ret patterns else Raise e
    end.

(* ------------------------------------------------------------------------- *)
(** ** The listing tool [extract_code.py] *)

Module ExtractCode.

(** An index of a slice brought into the bounds of a list of [n]
    elements, as Python does. *)
Definition clamp (n i : Z) : Z :=
  if (i <? 0)%Z then Z.max 0 (n + i) else Z.min i n.

(** [l[a:b]] *)
Definition slice (A : Type) (l : list A) (a b : Z) : list A :=
  let a' := clamp (len l) a in
  let b' := clamp (len l) b in
  firstn (Z.to_nat (b' - a')) (skipn (Z.to_nat a') l).

(** [read_file_lines(file_path, start_line, end_line)]; [why p] is the
    text of the exception [open] raises for [p]. *)
Definition read_file_lines (t : Tree) (why : string -> string) (file_path : string)
           (start_line : Z) (end_line : option Z) : list string :=
  match open_at t file_path with
  | Some text =>
      let lines := Str.readlines text in
      let end_line := match end_line with None => start_line | Some e => e end in
      let start_idx := Z.max 0 (start_line - 1) in
      let end_idx := Z.min (len lines) end_line in
      slice lines start_idx end_idx
  | None => [("# Unable to read file: " ++ why file_path)%string]
  end.

(** [find_function_at_line(file_path, line)] of this file: the loop of
    the slicer's function, without the test of [os.path.exists]. *)
Definition find_function_at_line (t : Tree) (file_path : string) (line : Z) : option span :=
  match open_at t file_path with
  | Some text => Some (locate_lines (Str.readlines text) line)
  | None => None
  end.

(** [read_function_code(file_path, line)] *)
Definition read_function_code (t : Tree) (why : string -> string) (file_path : string)
           (line : Z) : option string * list string * Z * Z :=
  match find_function_at_line t file_path line with
  | Some (func_name, func_start, func_end) =>
      if negb (Str.nonempty func_name) then (None, [], 0%Z, 0%Z)
      else (Some func_name,
            read_file_lines t why file_path func_start (Some func_end),
            func_start, func_end)
  | None => (None, [], 0%Z, 0%Z)
  end.

(** [line.rstrip()] *)
Definition rstrip (s : string) : string := Str.of_chars (Str.rstrip_chars (Str.chars s)).

(** One printed row of a listing: the marker is the arrow when [marked],
    then the line number and the text. *)
Record Row : Type := {
  marked : bool;
  number : Z;
  shown : string
}.

(** The loops that print a listing: row [j] is numbered [first + j] and
    is marked when that number is [target]. *)
Definition listing (first target : Z) (lines : list string) : list Row :=
  map (fun jl => {| marked := (first + fst jl =? target)%Z;
                    number := (first + fst jl)%Z;
                    shown := rstrip (snd jl) |})
      (enumerate 0 lines).

(** The function-level listing of [extract_same_line_sources_sinks]. *)
Definition function_listing (t : Tree) (why : string -> string) (file_path : string)
           (target_line : Z) : list Row :=
  let '(_, func_lines, func_start, _) := read_function_code t why file_path target_line in
  listing func_start target_line func_lines.

(** Its context listing: three lines before and after the target. *)
Definition context_listing (t : Tree) (why : string -> string) (file_path : string)
           (target_line : Z) : list Row :=
  let context_lines :=
    read_file_lines t why file_path (target_line - 3)%Z (Some (target_line + 3)%Z) in
  listing (target_line - 3)%Z target_line context_lines.

End ExtractCode.
(** ** Vocabulary of the statements *)

(** Syntactic checks on a pattern: it cannot match the empty string; its
    group takes part in every match; its group never captures the empty
    string. *)
Fixpoint nonnull (r : regex) : bool :=
  match r with
  | Cls _ => true
  | Seq a b => nonnull a || nonnull b
  | Alt a b => nonnull a && nonnull b
  | Grp a => nonnull a
  | Eps | Bol | Star _ => false
  end.

Fixpoint has_group (r : regex) : bool :=
  match r with
  | Grp _ => true
  | Seq a b => has_group a || has_group b
  | Alt a b => has_group a && has_group b
  | Eps | Bol | Cls _ | Star _ => false
  end.

Fixpoint group_nonnull (r : regex) : bool :=
  match r with
  | Grp a => nonnull a
  | Seq a b => group_nonnull a && group_nonnull b
  | Alt a b => group_nonnull a && group_nonnull b
  | Eps | Bol | Cls _ | Star _ => true
  end.

Fixpoint takewhile (p : ascii -> bool) (l : list ascii) : list ascii :=
  match l with
  | c :: l' => if p c then c :: takewhile p l' else []
  | [] => []
  end.

(** Membership in the sets a-zA-Z_ and a-zA-Z0-9_ of a case-sensitive
    pattern. *)
Definition ids : ascii -> bool := cls_match false id_start.
Definition idc : ascii -> bool := cls_match false id_char.

Definition lparen : ascii := c_ "(".
Definition blank : ascii := ascii_of_nat 32.

(** What every call pattern ends with: white space, then the parenthesis. *)
Definition paren_tail : regex := Seq (Star Space) (Cls (Ch lparen)).

(** The match of the free-call pattern at the head of a text, read off
    the text directly: an identifier as long as it can be, any white
    space, an opening parenthesis. *)
Definition free_call_at (s : list ascii) : option mres :=
  match s with
  | x :: s' =>
      if ids x then
        let name := x :: takewhile idc s' in
        let r1 := Str.dropwhile idc s' in
        match Str.dropwhile Str.is_space r1 with
        | y :: r3 =>
            if Ascii.eqb y lparen
            then Some (MRes (name ++ takewhile Str.is_space r1 ++ [y]) (Some name) r3)
            else None
        | [] => None
        end
      else None
  | [] => None
  end.


(** A line the definition recognizer accepts, and one it does not. *)
Definition is_def (code_line : string) : Prop := func_search code_line <> None.
Definition no_def (code_line : string) : Prop := func_search code_line = None.

(** The name the recognizer reads off a definition line. *)
Definition def_name (code_line : string) : option string :=
  match func_search code_line with
  | Some m => group1 m
  | None => None
  end.

(** A file the program can read. *)
Definition readable (t : Tree) (p : string) (text : string) : Prop :=
  exists_at t p = true /\ open_at t p = Some text.



(** The recognizer matches found in one text, pattern by pattern, each
    stripped. *)
Definition directives (content : string) : list string :=
  map Str.strip (flat_map (fun pattern => findall true pattern content) include_patterns).

(** The entries of [call_graph] and of [all_sinks] under a key. *)
Definition entries (V : Type) (k : string) (d : Dict.t (list V)) : list V :=
  match Dict.lookup k d with Some l => l | None => [] end.

(** Every list stored in the dictionary has an element. *)
Definition full (V : Type) (d : Dict.t (list V)) : Prop :=
  Forall (fun kv => snd kv <> []) d.



Definition same_call (name : string) (n : Z) (c : Call) : bool :=
  String.eqb (call_function c) name && (call_line c =? n)%Z.



(** What the project-wide scan finds in one file; nothing when the file
    cannot be read. *)
Definition file_hits (re_search : string -> string -> bool) (t : Tree)
           (sources sinks : list string) (rel : string)
  : list PatternMatch * list PatternMatch :=
  match open_at t rel with
  | Some text => scan_lines re_search (Some rel) sources sinks (Str.readlines text)
  | None => ([], [])
  end.

Definition sources_in (re_search : string -> string -> bool) (t : Tree)
           (sources sinks : list string) (rel : string) : list PatternMatch :=
  fst (file_hits re_search t sources sinks rel).

Definition sinks_in (re_search : string -> string -> bool) (t : Tree)
           (sources sinks : list string) (rel : string) : list PatternMatch :=
  snd (file_hits re_search t sources sinks rel).

(** The value of a sparse mapping for a list of records. *)
Definition sparse (A : Type) (l : list A) : option (list A) :=
  if nonempty_list l then Some l else None.

(** The effect of one iteration of a walk that stores the non-empty
    result [h rel] under the key [rel]. *)
Definition store_sparse (A : Type) (h : string -> list A) (d : Dict.t (list A))
           (rel : string) : Dict.t (list A) :=
  match sparse (h rel) with
  | Some l => Dict.set rel l d
  | None => d
  end.

(** What the call extractor returns for a path, and the call sites of the
    whole walk in the order the call graph receives them. *)
Definition calls_in (t : Tree) (p : string) : list Call :=
  if exists_at t p then
    match open_at t p with
    | Some text => calls_of_lines (Str.readlines text)
    | None => []
    end
  else [].

Definition all_call_sites (t : Tree) : list CallSite :=
  flat_map (fun rel => map (tag_call rel) (calls_in t rel)) (php_files t).

(** The entries the include resolver appends for one file: one per
    recognizer match that passes the guard. *)
Definition edges_of_text (t : Tree) (rel content : string) : list string :=
  map (edge_of t rel) (filter is_literal (directives content)).

Definition file_edges (t : Tree) (rel : string) : list string :=
  match open_at t rel with
  | Some content => edges_of_text t rel content
  | None => []
  end.

Definition all_edges (t : Tree) : list (string * string) :=
  flat_map (fun rel => map (pair rel) (file_edges t rel)) (php_files t).

(** The definitions one file adds to the index; nothing when it cannot
    be read. *)
Definition index_file (t : Tree) (definitions : Dict.t (list Definition_)) (rel : string)
  : Dict.t (list Definition_) :=
  match open_at t rel with
  | Some text => index_lines rel (Str.readlines text) definitions
  | None => definitions
  end.


(** Two spans with equal names are equal when their bounds are. *)
Ltac span_eq :=
  apply f_equal2; [apply f_equal2; [reflexivity | lia] | lia].

(** A fact about one character, checked on all 256. *)
Ltac all_chars c :=
  destruct c as [[] [] [] [] [] [] [] []]; vm_compute; intros; congruence.

(** Sample trees for the examples: files at the top of the tree, given as
    (name, text); a name without text is a file that cannot be read. *)
Module Sample.

Definition nl : string := String Str.newline EmptyString.
Definition blank_line : string := EmptyString.

Fixpoint unlines (l : list string) : string :=
  match l with
  | [] => EmptyString
  | x :: l' => (x ++ nl ++ unlines l')%string
  end.

Definition tree (files : list (string * option string)) : Tree :=
  {| walk := map (fun f => (EmptyString, fst f)) files;
     open_at := fun p => match Dict.lookup p files with Some o => o | None => None end;
     exists_at := fun p => Dict.mem p files |}.

(** A machine without Joern. *)
Definition no_joern : Host :=
  {| getcwd := "/work";
     environ_JOERN_DIR := None;
     isdir := fun _ => false;
     os_exists := fun _ => false;
     subprocess_run := fun _ => Raise (OSError "No such file or directory") |}.

(** [re.search] for patterns without metacharacters: substring search. *)
Definition substring_search (pattern line : string) : bool :=
  match String.index 0 pattern line with Some _ => true | None => false end.

(** Scenario 2 of the specification: [foo] defined once, in [a.php] at
    line 5, and called once, in [c.php] at line 20. *)
Definition a_php : string :=
  unlines ["<?php"; blank_line; "// helper"; blank_line; "function foo($x) {"; "  return $x + 1;"; "}"]%string.

Definition c_php : string :=
  unlines (repeat EmptyString 19 ++ ["$y = foo(3);"%string]).

Definition scenario2 : Tree := tree [("a.php", Some a_php); ("c.php", Some c_php)]%string.

Definition inside_foo : Args :=
  {| arg_src := "project"; arg_file := "a.php"; arg_line := 6 |}.





(** A file with two functions. *)
Definition lib_php : string :=
  unlines ["<?php"; "function a() {"; "}"; "function b() {"; "  return 1;"; "}"]%string.

Definition lib : Tree := tree [("lib.php", Some lib_php)]%string.



(** A file with zero lines. *)
Definition empty : Tree := tree [("empty.php", Some EmptyString)]%string.





(** A member call. *)
Definition save_php : string := unlines ["<?php"; "$obj->save($x);"]%string.

Definition saves : Tree := tree [("save.php", Some save_php)]%string.

End Sample.


(* ------------------------------------------------------------------------- *)
(** ** Vocabulary of the further statements *)

(** The definitions of one file, in line order, each under its name, and
    those of the whole walk in the order the index receives them. *)
Definition definition_of_line (rel : string) (nl : Z * string)
  : list (string * Definition_) :=
  match func_search (snd nl) with
  | Some m => [(group1_str m,
                {| def_file := rel; def_line := fst nl; def_code := Str.strip (snd nl) |})]
  | None => []
  end.

Definition definitions_of_lines (rel : string) (lines : list string)
  : list (string * Definition_) :=
  flat_map (definition_of_line rel) (enumerate 1 lines).

Definition definitions_in (t : Tree) (rel : string) : list (string * Definition_) :=
  match open_at t rel with
  | Some text => definitions_of_lines rel (Str.readlines text)
  | None => []
  end.

Definition all_definitions (t : Tree) : list (string * Definition_) :=
  flat_map (definitions_in t) (php_files t).


(** The 'calls' chains of a list of chains. *)
Definition calls_of (chains : list FunctionChain)
  : list (CallingFunction * CalledFunction) :=
  flat_map (fun c => match c with
                     | ChainCalls a b => [(a, b)]
                     | ChainCalledFrom _ _ => []
                     end) chains.

(** The two halves of a 'calls' chain for a call of the target file and a
    definition of its callee. *)
Definition calls_pair (args : Args) (func_name : string) (call : Call)
           (definition : Definition_) : CallingFunction * CalledFunction :=
  ({| cg_name := func_name;
      cg_file := arg_file args;
      cg_call_line := call_line call;
      cg_call_code := call_code call |},
   {| cd_name := call_function call;
      cd_file := def_file definition;
      cd_definition_line := def_line definition;
      cd_definition_code := def_code definition |}).

(** The definitions of a name, over the whole walk. *)
Definition definitions_named (t : Tree) (name : string) : list Definition_ :=
  map snd (filter (fun x => String.eqb name (fst x)) (all_definitions t)).



(** The lines of a patterns file that carry a pattern: what is left of a
    line after stripping is not empty and holds no hash sign. *)
Definition plain (line : string) : bool := Str.nonempty line && negb (has_hash line).

Definition plain_lines (lines : list string) : list string :=
  filter plain (map Str.strip lines).

(** The configuration as its author means it: a section maps category
    names to sequences of items, an item is a mapping, and an enabled item
    has a pattern. *)
Definition enabled (item : list (string * Yaml.value)) : bool :=
  Yaml.truthy (match Dict.lookup "enabled" item with
               | Some flag => flag
               | None => Yaml.Bool false
               end).

Definition good_item (item : Yaml.value) : bool :=
  match item with
  | Yaml.Map fields =>
      if enabled fields
      then match Dict.lookup "pattern" fields with Some _ => true | None => false end
      else true
  | _ => false
  end.

Definition item_patterns (item : Yaml.value) : list Yaml.value :=
  match item with
  | Yaml.Map fields =>
      if enabled fields
      then match Dict.lookup "pattern" fields with Some p => [p] | None => [] end
      else []
  | _ => []
  end.

Definition category_items (category : Yaml.value) : list Yaml.value :=
  match category with Yaml.Seq items => items | _ => [] end.

Definition good_category (category : Yaml.value) : bool :=
  match category with Yaml.Seq items => forallb good_item items | _ => false end.

Definition good_section (section : option Yaml.value) : bool :=
  match section with
  | None => true
  | Some (Yaml.Map categories) => forallb good_category (map snd categories)
  | Some _ => false
  end.

Definition section_enabled (section : option Yaml.value) : list Yaml.value :=
  match section with
  | Some (Yaml.Map categories) =>
      flat_map (fun category => flat_map item_patterns (category_items category))
               (map snd categories)
  | _ => []
  end.

(** A list that does not begin with a character of the class. *)
Definition clean_start (p : ascii -> bool) (l : list ascii) : Prop :=
  match l with [] => True | c :: _ => p c = false end.

(** Line number [n] of a file, counted from 1. *)
Definition line_at (lines : list string) (n : Z) : option string :=
  if (n <? 1)%Z then None else nth_error lines (Z.to_nat (n - 1)).

(** A printed row. *)
Definition row_of (target number : Z) (text : string) : ExtractCode.Row :=
  {| ExtractCode.marked := (number =? target)%Z;
     ExtractCode.number := number;
     ExtractCode.shown := ExtractCode.rstrip text |}.

(** Files and machines for the further examples. *)
Module Fixture.

(** A patterns file: a pattern, a comment line, a blank line, a pattern
    followed by a comment, and a pattern with white space around it. *)
Definition patterns_txt : list string :=
  [("$_GET" ++ Sample.nl)%string; ("# user input" ++ Sample.nl)%string; Sample.nl;
   ("echo   # output" ++ Sample.nl)%string; ("  mysql_query  " ++ Sample.nl)%string].

Definition item (pattern : string) (flag : bool) : Yaml.value :=
  Yaml.Map [("pattern"%string, Yaml.Str pattern); ("enabled"%string, Yaml.Bool flag)].

(** A configuration with one disabled item and one item without the key
    'enabled'. *)
Definition config : list (string * Yaml.value) :=
  [("sources"%string,
    Yaml.Map [("user_input"%string,
               Yaml.Seq [item "\$_GET" true; item "\$_POST" false;
                         Yaml.Map [("pattern"%string, Yaml.Str "\$_COOKIE")]])]);
   ("sinks"%string,
    Yaml.Map [("output"%string, Yaml.Seq [item "echo" true]);
              ("database"%string, Yaml.Seq [item "mysql_query" true])])].

(** The same sources, and a sink that is enabled but has no pattern. *)
Definition broken_config : list (string * Yaml.value) :=
  [("sources"%string,
    Yaml.Map [("user_input"%string, Yaml.Seq [item "\$_GET" true])]);
   ("sinks"%string,
    Yaml.Map [("output"%string,
               Yaml.Seq [item "echo" true;
                         Yaml.Map [("enabled"%string, Yaml.Bool true)]])])].

Definition disk : Disk :=
  {| path_exists := fun p =>
       String.eqb p "patterns.txt" || String.eqb p "config.yaml"
       || String.eqb p "broken.yaml";
     read_lines := fun p =>
       if String.eqb p "patterns.txt" then (patterns_txt, None)
       else ([], Some (OSError "No such file or directory"));
     safe_load := fun p =>
       if String.eqb p "config.yaml" then Some (Yaml.Map config)
       else if String.eqb p "broken.yaml" then Some (Yaml.Map broken_config)
       else None |}.



(** The text of the exception [open] raises. *)
Definition why (p : string) : string :=
  ("[Errno 2] No such file or directory: '" ++ p ++ "'")%string.

End Fixture.
(* ------------------------------------------------------------------------- *)
(** ** The matcher *)



Lemma nonnull_sound ic r : nonnull r = true ->
  forall bol s m, In m (ms ic r bol s) -> consumed m <> [].
Proof.
  induction r; simpl; intros Hn bol s m H; try discriminate.
  - destruct s as [|x s']; [contradiction|].
    destruct (cls_match ic c x); [|contradiction].
    destruct H as [<-|[]]. discriminate.
  - apply in_flat_map in H. destruct H as [m1 [H1 H2]].
    apply in_map_iff in H2. destruct H2 as [m2 [<- H2]]. simpl.
    apply orb_true_iff in Hn. intros E. apply app_eq_nil in E. destruct E as [E1 E2].
    destruct Hn as [Hn|Hn]; [eapply IHr1 | eapply IHr2]; eauto.
  - apply andb_true_iff in Hn. destruct Hn.
    apply in_app_or in H. destruct H; eauto.
  - apply in_map_iff in H. destruct H as [m1 [<- H]]. simpl. eauto.
Qed.

Lemma has_group_sound ic r : has_group r = true ->
  forall bol s m, In m (ms ic r bol s) -> group m <> None.
Proof.
  induction r; simpl; intros Hn bol s m H; try discriminate.
  - apply in_flat_map in H. destruct H as [m1 [H1 H2]].
    apply in_map_iff in H2. destruct H2 as [m2 [<- H2]]. simpl.
    apply orb_true_iff in Hn. unfold later_group.
    destruct (group m2) eqn:E2; [discriminate|].
    destruct Hn as [Hn|Hn]; [eapply IHr1; eauto|].
    exfalso. eapply IHr2; eauto.
  - apply andb_true_iff in Hn. destruct Hn.
    apply in_app_or in H. destruct H; eauto.
  - apply in_map_iff in H. destruct H as [m1 [<- H]]. simpl. discriminate.
Qed.

Lemma group_nonnull_sound ic r : group_nonnull r = true ->
  forall bol s m g, In m (ms ic r bol s) -> group m = Some g -> g <> [].
Proof.
  induction r; simpl; intros Hn bol s m g H Hg.
  - destruct H as [<-|[]]. discriminate.
  - destruct bol; simpl in H; [destruct H as [<-|[]]; discriminate | contradiction].
  - destruct s as [|x s']; [contradiction|].
    destruct (cls_match ic c x); [|contradiction].
    destruct H as [<-|[]]. discriminate.
  - apply in_flat_map in H. destruct H as [m1 [H1 H2]].
    apply in_map_iff in H2. destruct H2 as [m2 [<- H2]]. simpl in Hg.
    apply andb_true_iff in Hn. destruct Hn as [Ha Hb]. unfold later_group in Hg.
    destruct (group m2) eqn:E2.
    + inversion Hg; subst. eapply IHr2; eauto.
    + eapply IHr1; eauto.
  - apply andb_true_iff in Hn. destruct Hn.
    apply in_app_or in H. destruct H; eauto.
  - apply in_map_iff in H. destruct H as [[a b] [<- H]]. discriminate.
  - apply in_map_iff in H. destruct H as [m1 [<- H]]. simpl in Hg.
    inversion Hg; subst. eapply nonnull_sound; eauto.
Qed.

Lemma match_at_in ic r bol s m :
  match_at ic r bol s = Some m -> In m (ms ic r bol s).
Proof.
  unfold match_at. destruct (ms ic r bol s); simpl; intros H; inversion H; auto.
Qed.

(** What [re.search] returns is a match at some position. *)
Lemma search_from_in ic r : forall s bol m,
  search_from ic r bol s = Some m ->
  exists b pre s', s = pre ++ s' /\ In m (ms ic r b s').
Proof.
  induction s as [|x s IH]; simpl; intros bol m H.
  - destruct (match_at ic r bol []) eqn:E; [|discriminate].
    inversion H; subst. exists bol, [], []. split; [reflexivity|]. apply match_at_in; assumption.
  - destruct (match_at ic r bol (x :: s)) eqn:E.
    + inversion H; subst. exists bol, [], (x :: s). split; [reflexivity|].
      apply match_at_in; assumption.
    + destruct (IH _ _ H) as [b [pre [s' [-> Hin]]]].
      exists b, (x :: pre), s'. auto.
Qed.

(** Group 1 takes part in every match of every pattern of the source and
    never captures the empty string. *)
Lemma group_takes_part :
  forallb (fun r => has_group r && group_nonnull r)
          (func_pattern :: call_patterns ++ include_patterns) = true.
Proof. vm_compute. reflexivity. Qed.

Lemma of_chars_nonempty l : l <> [] -> Str.nonempty (Str.of_chars l) = true.
Proof. destruct l; [congruence|reflexivity]. Qed.

(** A recognized definition line carries a non-empty name. *)
Lemma def_name_nonempty code_line m :
  func_search code_line = Some m ->
  exists name, group1 m = Some name /\ Str.nonempty name = true.
Proof.
  unfold func_search, search. intros H.
  apply search_from_in in H. destruct H as [b [pre [s' [_ Hin]]]].
  pose proof (has_group_sound true func_pattern eq_refl _ _ _ Hin) as Hg.
  unfold group1. destruct (group m) as [g|] eqn:E; [|congruence].
  exists (Str.of_chars g). split; [reflexivity|].
  apply of_chars_nonempty.
  eapply (group_nonnull_sound true func_pattern); eauto.
Qed.


(* ------------------------------------------------------------------------- *)
(** ** The function locator *)

Lemma len_app (A : Type) (l1 l2 : list A) : len (l1 ++ l2) = (len l1 + len l2)%Z.
Proof. unfold len. rewrite length_app. lia. Qed.

Lemma len_cons (A : Type) (a : A) (l : list A) : len (a :: l) = (1 + len l)%Z.
Proof. unfold len. simpl length. lia. Qed.

Lemma len_nonneg (A : Type) (l : list A) : (0 <= len l)%Z.
Proof. unfold len. lia. Qed.

Lemma find_function_readable t p text line :
  readable t p text ->
  find_function_at_line t p line = Ret (Some (locate_lines (Str.readlines text) line)).
Proof.
  intros [He Ho]. unfold find_function_at_line, py_open.
  rewrite He, Ho. reflexivity.
Qed.

Section Locate.
Variable line : Z.

(** Lines without a definition leave the state of the loop alone. *)
Lemma loop_skip : forall pre rest n cf fs,
  Forall no_def pre ->
  locate_loop (pre ++ rest) n cf fs line = locate_loop rest (n + len pre) cf fs line.
Proof.
  induction pre as [|l pre IH]; intros rest n cf fs H.
  - simpl. f_equal. unfold len. simpl. lia.
  - inversion H as [|? ? Hl Hpre]; subst. simpl. unfold no_def in Hl. rewrite Hl.
    rewrite IH by assumption. f_equal. rewrite len_cons. lia.
Qed.

(** The loop does not return on lines that lie before the target. *)
Lemma loop_past : forall pre rest n cf fs,
  (n + len pre <= line)%Z ->
  exists cf' fs',
    locate_loop (pre ++ rest) n cf fs line
    = locate_loop rest (n + len pre) cf' fs' line.
Proof.
  induction pre as [|l pre IH]; intros rest n cf fs H.
  - exists cf, fs. simpl. f_equal. unfold len. simpl. lia.
  - rewrite len_cons in H. simpl.
    assert (Hn : (n + 1 + len pre <= line)%Z) by lia.
    assert (E : (n + len (l :: pre) = n + 1 + len pre)%Z) by (rewrite len_cons; lia).
    rewrite E.
    destruct (func_search l) as [m|].
    + destruct cf as [f|], fs as [s|]; try (apply IH; assumption).
      replace (line <=? n - 1)%Z with false
        by (symmetry; apply Z.leb_gt; pose proof (len_nonneg pre); lia).
      rewrite andb_false_r. apply IH; assumption.
    + apply IH; assumption.
Qed.

(** While the target lies before every start seen, the loop runs out. *)
Lemma loop_before : forall ls n cf fs,
  (forall s, fs = Some s -> (line < s)%Z) -> (line < n)%Z ->
  exists cf' fs', locate_loop ls n cf fs line = inr (cf', fs')
                  /\ (forall s, fs' = Some s -> (line < s)%Z).
Proof.
  induction ls as [|l ls IH]; intros n cf fs Hfs Hn; simpl.
  - eauto.
  - destruct (func_search l) as [m|].
    + assert (Hnew : forall s, Some n = Some s -> (line < s)%Z)
        by (intros s E; inversion E; subst; assumption).
      destruct cf as [f|], fs as [s|]; try (apply IH; [assumption|lia]).
      replace (s <=? line)%Z with false
        by (symmetry; apply Z.leb_gt; apply Hfs; reflexivity).
      rewrite andb_false_r. simpl. apply IH; [assumption|lia].
    + apply IH; [assumption|lia].
Qed.

(** Inside an open span the loop returns at the next definition. *)
Lemma loop_closes mid d' post' n name s :
  Forall no_def mid -> is_def d' ->
  Str.nonempty name = true -> (s <> 0)%Z ->
  (s <= line)%Z -> (line <= n + len mid - 1)%Z ->
  locate_loop (mid ++ d' :: post') n (Some name) (Some s) line
  = inl (name, s, (n + len mid - 1)%Z).
Proof.
  intros Hmid Hd Hname Hs Hlo Hhi. rewrite loop_skip by assumption. simpl.
  unfold is_def in Hd. destruct (func_search d') as [m|]; [|congruence].
  rewrite Hname. simpl.
  replace (s =? 0)%Z with false by (symmetry; apply Z.eqb_neq; assumption).
  replace (s <=? line)%Z with true by (symmetry; apply Z.leb_le; assumption).
  replace (line <=? n + len mid - 1)%Z with true by (symmetry; apply Z.leb_le; assumption).
  reflexivity.
Qed.

(** Whatever the loop returns or leaves behind lies inside the file. *)
Lemma loop_span : forall ls n cf fs,
  (1 <= n)%Z ->
  (forall s, fs = Some s -> (1 <= s < n)%Z) ->
  match locate_loop ls n cf fs line with
  | inl (_, s, e) => (1 <= s /\ s <= line <= e /\ e <= n + len ls - 1)%Z
  | inr (_, fs') => forall s, fs' = Some s -> (1 <= s <= n + len ls - 1)%Z
  end.
Proof.
  induction ls as [|l ls IH]; intros n cf fs Hn Hfs; simpl.
  - intros s E. specialize (Hfs s E). unfold len. simpl. lia.
  - assert (Hnext : forall cf' fs',
               (forall s, fs' = Some s -> (1 <= s < n + 1)%Z) ->
               match locate_loop ls (n + 1) cf' fs' line with
               | inl (_, s, e) => (1 <= s /\ s <= line <= e /\ e <= n + len (l :: ls) - 1)%Z
               | inr (_, fs'') =>
                   forall s, fs'' = Some s -> (1 <= s <= n + len (l :: ls) - 1)%Z
               end).
    { intros cf' fs' H'.
      assert (Hn' : (1 <= n + 1)%Z) by lia.
      specialize (IH (n + 1)%Z cf' fs' Hn' H').
      rewrite len_cons.
      destruct (locate_loop ls (n + 1) cf' fs' line) as [[[? s] e]|[? fs'']].
      - lia.
      - intros s E. specialize (IH s E). lia. }
    assert (Hkeep : forall s, fs = Some s -> (1 <= s < n + 1)%Z)
      by (intros s E; specialize (Hfs s E); lia).
    assert (Hnew : forall s, Some n = Some s -> (1 <= s < n + 1)%Z)
      by (intros s E; inversion E; subst; lia).
    destruct (func_search l) as [m|]; [|apply Hnext; assumption].
    destruct cf as [f|], fs as [s|]; try (apply Hnext; assumption).
    destruct (truthy_name (Some f) && truthy_int (Some s)
              && (s <=? line)%Z && (line <=? n - 1)%Z) eqn:E.
    + apply andb_true_iff in E. destruct E as [E E4].
      apply andb_true_iff in E. destruct E as [E E3].
      apply Z.leb_le in E3, E4. specialize (Hfs s eq_refl).
      rewrite len_cons. pose proof (len_nonneg ls). lia.
    + apply Hnext; assumption.
Qed.

End Locate.

(** The locator on the lines of a file: either the synthetic span or a
    span around the queried line. *)
Lemma locate_lines_cases lines line :
  locate_lines lines line = ("global"%string, 1%Z, len lines)
  \/ exists name s e, locate_lines lines line = (name, s, e)
                      /\ (1 <= s /\ s <= line <= e /\ e <= len lines)%Z.
Proof.
  unfold locate_lines.
  pose proof (@loop_span line lines 1%Z None None) as H.
  assert (H1 : (1 <= 1)%Z) by lia.
  assert (H2 : forall s, @None Z = Some s -> (1 <= s < 1)%Z) by (intros s E; discriminate).
  specialize (H H1 H2).
  destruct (locate_loop lines 1 None None line) as [[[f s] e]|[[f|] [s|]]]; auto.
  - right. exists f, s, e. split; [reflexivity|lia].
  - destruct (truthy_name (Some f) && truthy_int (Some s)
              && (s <=? line)%Z && (line <=? len lines)%Z) eqn:E; auto.
    right. exists f, s, (len lines).
    apply andb_true_iff in E. destruct E as [E E4].
    apply andb_true_iff in E. destruct E as [E E3].
    apply Z.leb_le in E3, E4. specialize (H s eq_refl).
    split; [reflexivity|lia].
Qed.

(** C4. For a readable file and a line inside the body of a recognized
    function -- from its definition line [start] up to the line before
    the next recognized definition, or up to the last line of the file
    when no definition follows -- [find_function_at_line] returns the
    name of that function with the span [start, end], and
    start <= line <= end. *)
Theorem locate_inside_function t p text pre d post name line end_line :
  readable t p text ->
  Str.readlines text = pre ++ d :: post ->
  def_name d = Some name ->
  (len pre + 1 <= line)%Z ->
  (exists mid d' post',
      post = mid ++ d' :: post' /\ Forall no_def mid /\ is_def d'
      /\ end_line = (len pre + 1 + len mid)%Z)
  \/ (Forall no_def post /\ end_line = len (pre ++ d :: post)) ->
  (line <= end_line)%Z ->
  find_function_at_line t p line = Ret (Some (name, (len pre + 1)%Z, end_line))
  /\ (len pre + 1 <= line <= end_line)%Z.
Proof.
  intros Hr Hlines Hname Hlo Hend Hhi.
  split; [|lia].
  rewrite (find_function_readable line Hr), Hlines.
  do 3 f_equal. unfold locate_lines.
  destruct (@loop_past line pre (d :: post) 1%Z None None) as [cf [fs Hpast]]; [lia|].
  rewrite Hpast. clear Hpast.
  unfold def_name in Hname.
  destruct (func_search d) as [m|] eqn:Hd; [|discriminate].
  destruct (def_name_nonempty _ Hd) as [name' [Hg Hne]].
  assert (name' = name) by congruence. subst name'.
  assert (Hstep : locate_loop (d :: post) (1 + len pre) cf fs line
                  = locate_loop post (1 + len pre + 1) (Some name) (Some (1 + len pre)%Z) line).
  { cbn [locate_loop]. rewrite Hd, Hname.
    destruct cf as [f|], fs as [s|]; try reflexivity.
    replace (line <=? 1 + len pre - 1)%Z with false
      by (symmetry; apply Z.leb_gt; lia).
    rewrite andb_false_r. reflexivity. }
  rewrite Hstep. clear Hstep.
  pose proof (len_nonneg pre) as Hpre.
  destruct Hend as [[mid [d' [post' [-> [Hmid [Hd' ->]]]]]] | [Hpost ->]].
  - rewrite (@loop_closes line mid d' post' (1 + len pre + 1)%Z name (1 + len pre)%Z);
      try assumption; try lia.
    cbn iota. span_eq.
  - replace post with (post ++ []) at 1 by apply app_nil_r.
    rewrite loop_skip by assumption. cbn [locate_loop truthy_name truthy_int].
    rewrite Hne.
    replace (1 + len pre =? 0)%Z with false by (symmetry; apply Z.eqb_neq; lia).
    replace (1 + len pre <=? line)%Z with true by (symmetry; apply Z.leb_le; lia).
    replace (line <=? len (pre ++ d :: post))%Z with true
      by (symmetry; apply Z.leb_le; assumption).
    cbn [andb negb]. span_eq.
Qed.

(** C5. For a readable file, when the file holds no recognized definition,
    or the queried line lies before the first recognized definition,
    [find_function_at_line] returns the span named global, from line 1
    to the number of lines of the file. *)
Theorem locate_global t p text line :
  readable t p text ->
  Forall no_def (Str.readlines text)
  \/ (exists pre d post,
        Str.readlines text = pre ++ d :: post /\ Forall no_def pre /\ is_def d
        /\ (line < len pre + 1)%Z) ->
  find_function_at_line t p line
  = Ret (Some ("global"%string, 1%Z, len (Str.readlines text))).
Proof.
  intros Hr H.
  rewrite (find_function_readable line Hr).
  do 2 f_equal. unfold locate_lines.
  destruct H as [Hnone | [pre [d [post [E [Hpre [Hd Hlt]]]]]]].
  - replace (Str.readlines text) with (Str.readlines text ++ []) at 1 by apply app_nil_r.
    rewrite loop_skip by assumption. reflexivity.
  - rewrite E at 1. rewrite loop_skip by assumption.
    destruct (@loop_before line (d :: post) (1 + len pre)%Z None None) as [cf [fs [-> Hfs]]];
      [intros s Hs; discriminate | lia |].
    destruct cf as [f|], fs as [s|]; try reflexivity.
    replace (s <=? line)%Z with false
      by (symmetry; apply Z.leb_gt; apply Hfs; reflexivity).
    rewrite andb_false_r. reflexivity.
Qed.

(** C8, as the code has it. For a readable file and any queried line the
    locator returns a span; the span is either the synthetic one, named
    global, with start 1 and end the number of lines, or a span with
    1 <= start <= line <= end <= number of lines; so start <= end holds
    whenever the file has at least one line, and the synthetic span of a
    file with zero lines is (1, 0). *)
Theorem span_bounds t p text line :
  readable t p text ->
  exists name s e,
    find_function_at_line t p line = Ret (Some (name, s, e))
    /\ ((name, s, e) = ("global"%string, 1%Z, len (Str.readlines text))
        \/ (1 <= s /\ s <= line <= e /\ e <= len (Str.readlines text))%Z)
    /\ (Str.readlines text <> [] -> (s <= e)%Z)
    /\ (Str.readlines text = [] -> (name, s, e) = ("global"%string, 1%Z, 0%Z)).
Proof.
  intros Hr. rewrite (find_function_readable line Hr).
  destruct (locate_lines_cases (Str.readlines text) line) as [E | [name [s [e [E Hb]]]]].
  - exists "global"%string, 1%Z, (len (Str.readlines text)).
    rewrite E. split; [reflexivity|]. split; [auto|]. split.
    + intros Hne. destruct (Str.readlines text); [congruence|]. rewrite len_cons.
      pose proof (len_nonneg l). lia.
    + intros ->. reflexivity.
  - exists name, s, e. rewrite E. split; [reflexivity|]. split; [auto|]. split.
    + intros _. lia.
    + intros Hnil. rewrite Hnil in Hb. unfold len in Hb. simpl in Hb. lia.
Qed.

(* ------------------------------------------------------------------------- *)
(** ** Dictionaries *)

Section DictFacts.
Variable V : Type.
Implicit Types (d : Dict.t V) (k : string) (v : V).



Lemma lookup_in k v d : Dict.lookup k d = Some v -> In (k, v) d.
Proof.
  induction d as [|[k' v'] d IH]; simpl; [discriminate|].
  destruct (String.eqb k k') eqn:E.
  - apply String.eqb_eq in E. intros H. inversion H; subst. auto.
  - auto.
Qed.


Lemma lookup_none_keys k d : Dict.lookup k d = None -> ~ In k (Dict.keys d).
Proof.
  induction d as [|[k' v'] d IH]; simpl; intros H; [tauto|].
  destruct (String.eqb k k') eqn:E; [discriminate|].
  apply String.eqb_neq in E. intros [E'|Hin]; [congruence|]. apply IH; assumption.
Qed.
End DictFacts.

Section AppendFacts.
Variable X : Type.
Implicit Types (d : Dict.t (list X)) (k : string) (x : X).

Lemma entries_append k k' x d :
  entries k (Dict.append k' x d)
  = entries k d ++ (if String.eqb k k' then [x] else []).
Proof.
  unfold entries. induction d as [|[k1 xs] d IH]; simpl.
  - destruct (String.eqb k k'); reflexivity.
  - destruct (String.eqb k' k1) eqn:E1; simpl.
    + apply String.eqb_eq in E1. subst k1.
      destruct (String.eqb k k'); [reflexivity|]. rewrite app_nil_r. reflexivity.
    + destruct (String.eqb k k1) eqn:E2; [|assumption].
      apply String.eqb_eq in E2. subst k1.
      rewrite String.eqb_sym in E1. rewrite E1, app_nil_r. reflexivity.
Qed.

Lemma keys_append k x d :
  Dict.keys (Dict.append k x d)
  = if Dict.mem k d then Dict.keys d else Dict.keys d ++ [k].
Proof.
  unfold Dict.mem, Dict.keys. induction d as [|[k1 xs] d IH]; simpl; [reflexivity|].
  destruct (String.eqb k k1) eqn:E; simpl; [reflexivity|].
  rewrite IH. destruct (Dict.lookup k d); reflexivity.
Qed.

Lemma nodup_append k x d :
  NoDup (Dict.keys d) -> NoDup (Dict.keys (Dict.append k x d)).
Proof.
  intros H. rewrite keys_append. unfold Dict.mem.
  destruct (Dict.lookup k d) eqn:E; [assumption|].
  apply lookup_none_keys in E.
  apply NoDup_app; [assumption | repeat constructor; simpl; tauto |].
  intros a Ha [<-|[]]. contradiction.
Qed.

Lemma full_append k x d : full d -> full (Dict.append k x d).
Proof.
  unfold full. induction d as [|[k1 ys] d IH]; simpl; intros Hf.
  - repeat constructor. simpl. discriminate.
  - inversion Hf as [|? ? H1 H2]; subst.
    destruct (String.eqb k k1); constructor; simpl in *; auto.
    intros C. apply app_eq_nil in C. destruct C. discriminate.
Qed.

Lemma full_lookup k xs d : full d -> Dict.lookup k d = Some xs -> xs <> [].
Proof.
  unfold full. intros Hf H. apply lookup_in in H.
  rewrite Forall_forall in Hf. apply (Hf _ H).
Qed.

Lemma full_entries k d : full d -> entries k d = [] -> Dict.lookup k d = None.
Proof.
  unfold entries. intros Hf H. destruct (Dict.lookup k d) eqn:E; [|reflexivity].
  subst. exfalso. eapply full_lookup; eauto.
Qed.

(** A loop of [append]s groups the appended values by key, in order. *)
Lemma entries_fold_append (A : Type) (key : A -> string) (val : A -> X) k :
  forall (l : list A) d,
    entries k (fold_left (fun g a => Dict.append (key a) (val a) g) l d)
    = entries k d ++ map val (filter (fun a => String.eqb k (key a)) l).
Proof.
  induction l as [|a l IH]; intros d; simpl.
  - rewrite app_nil_r. reflexivity.
  - rewrite IH, entries_append.
    destruct (String.eqb k (key a)); simpl; rewrite <- app_assoc; reflexivity.
Qed.

Lemma nodup_fold_append (A : Type) (key : A -> string) (val : A -> X) :
  forall (l : list A) d,
    NoDup (Dict.keys d) ->
    NoDup (Dict.keys (fold_left (fun g a => Dict.append (key a) (val a) g) l d)).
Proof.
  induction l as [|a l IH]; intros d H; simpl; [assumption|].
  apply IH, nodup_append, H.
Qed.

Lemma full_fold_append (A : Type) (key : A -> string) (val : A -> X) :
  forall (l : list A) d,
    full d -> full (fold_left (fun g a => Dict.append (key a) (val a) g) l d).
Proof.
  induction l as [|a l IH]; intros d H; simpl; [assumption|].
  apply IH, full_append, H.
Qed.

End AppendFacts.

(* ------------------------------------------------------------------------- *)
(** ** The source/sink scanner *)

Section ScannerFacts.
Variable re_search : string -> string -> bool.









End ScannerFacts.

(** A loop whose body never raises is a fold. *)
Lemma for_each_ret (A S : Type) (body : S -> A -> res S) (f : S -> A -> S) :
  (forall s a, body s a = Ret (f s a)) ->
  forall l s, for_each l body s = Ret (fold_left f l s).
Proof.
  intros H. induction l as [|a l IH]; intros s; simpl; [reflexivity|].
  rewrite H. simpl. apply IH.
Qed.



Section ProjectScan.
Variable re_search : string -> string -> bool.
Variable t : Tree.
Variables sources sinks : list string.

Lemma scan_file_ret maps rel :
  scan_file re_search t sources sinks maps rel
  = Ret (store_sparse (sources_in re_search t sources sinks) (fst maps) rel,
         store_sparse (sinks_in re_search t sources sinks) (snd maps) rel).
Proof.
  unfold scan_file, try_readlines, py_open, store_sparse, sparse, sources_in, sinks_in, file_hits.
  destruct (open_at t rel) as [text|]; simpl.
  - destruct (scan_lines re_search (Some rel) sources sinks (Str.readlines text)) as [a b].
    simpl. destruct (nonempty_list a), (nonempty_list b); reflexivity.
  - destruct maps. reflexivity.
Qed.

Lemma fold_pair (A B C : Type) (f : A -> C -> A) (g : B -> C -> B) : forall l a b,
  fold_left (fun ab c => (f (fst ab) c, g (snd ab) c)) l (a, b)
  = (fold_left f l a, fold_left g l b).
Proof. induction l as [|c l IH]; intros a b; simpl; [reflexivity|apply IH]. Qed.

(** The project-wide scan never raises; its two mappings hold, for each
    [.php] file of the walk, the non-empty result of scanning that file. *)
Lemma scan_project_ret :
  analyze_sources_sinks_in_project re_search t sources sinks
  = Ret (fold_left (store_sparse (sources_in re_search t sources sinks)) (php_files t) [],
         fold_left (store_sparse (sinks_in re_search t sources sinks)) (php_files t) []).
Proof.
  unfold analyze_sources_sinks_in_project.
  rewrite (for_each_ret _ _ scan_file_ret). f_equal.
  apply (fold_pair (store_sparse (sources_in re_search t sources sinks))
                   (store_sparse (sinks_in re_search t sources sinks))).
Qed.


End ProjectScan.




(* ------------------------------------------------------------------------- *)
(** ** The walks of the project never raise *)

Lemma extract_function_calls_ret t p :
  extract_function_calls t p = Ret (calls_in t p).
Proof.
  unfold extract_function_calls, calls_in, py_open.
  destruct (exists_at t p); simpl; [|reflexivity].
  destruct (open_at t p); reflexivity.
Qed.

Lemma find_function_definitions_ret t :
  find_function_definitions t = Ret (fold_left (index_file t) (php_files t) []).
Proof.
  unfold find_function_definitions. apply for_each_ret.
  intros defs rel. unfold try_readlines, py_open, index_file.
  destruct (open_at t rel); reflexivity.
Qed.

Lemma fold_left_flat_map (A B S : Type) (f : S -> B -> S) (g : A -> list B) :
  forall l s,
    fold_left f (flat_map g l) s = fold_left (fun s a => fold_left f (g a) s) l s.
Proof.
  induction l as [|a l IH]; intros s; simpl; [reflexivity|].
  rewrite fold_left_app. apply IH.
Qed.

Lemma fold_left_map (A B S : Type) (f : S -> B -> S) (g : A -> B) :
  forall l s, fold_left f (map g l) s = fold_left (fun s a => f s (g a)) l s.
Proof. induction l as [|a l IH]; intros s; simpl; [reflexivity|apply IH]. Qed.

Lemma fold_left_ext (A S : Type) (f g : S -> A -> S) :
  (forall s a, f s a = g s a) -> forall l s, fold_left f l s = fold_left g l s.
Proof.
  intros H. induction l as [|a l IH]; intros s; simpl; [reflexivity|].
  rewrite H. apply IH.
Qed.

(** The call graph is built by appending the call sites of the walk, each
    under its callee name. *)
Lemma build_function_call_graph_ret t :
  build_function_call_graph t
  = Ret (fold_left (fun g s => Dict.append (site_function s) s g) (all_call_sites t) []).
Proof.
  unfold build_function_call_graph, all_call_sites.
  rewrite fold_left_flat_map.
  apply for_each_ret. intros g rel.
  rewrite extract_function_calls_ret. simpl. f_equal.
  rewrite fold_left_map. reflexivity.
Qed.

Lemma include_edges_spec t rel content deps :
  include_edges t rel content deps
  = fold_left (fun d e => Dict.append rel e d) (edges_of_text t rel content) deps.
Proof.
  unfold include_edges, edges_of_text, directives.
  revert deps. induction include_patterns as [|pat pats IH]; intros deps; simpl.
  - reflexivity.
  - rewrite IH. rewrite map_app, filter_app, map_app, fold_left_app. f_equal.
    generalize (findall true pat content). clear.
    intros ms. revert deps. induction ms as [|m ms IHm]; intros deps; simpl; [reflexivity|].
    rewrite IHm. unfold include_edges_step.
    destruct (is_literal (Str.strip m)); reflexivity.
Qed.

(** The include map is built by appending the accepted entries of the
    walk, each under its including file. *)
Lemma find_include_dependencies_ret t :
  find_include_dependencies t
  = Ret (fold_left (fun d e => Dict.append (fst e) (snd e) d) (all_edges t) []).
Proof.
  unfold find_include_dependencies, all_edges.
  rewrite fold_left_flat_map.
  apply for_each_ret. intros deps rel.
  unfold try_read, py_open, file_edges.
  destruct (open_at t rel) as [content|]; simpl; [|reflexivity].
  rewrite include_edges_spec, fold_left_map. reflexivity.
Qed.

Lemma analyze_sources_sinks_ret re_search t p sources sinks :
  exists found, analyze_sources_sinks re_search t p sources sinks = Ret found.
Proof.
  unfold analyze_sources_sinks, py_open.
  destruct (exists_at t p); simpl; [|eauto].
  destruct (open_at t p); simpl; eauto.
Qed.

(* ------------------------------------------------------------------------- *)
(** ** The include resolver *)

Lemma full_nil (X : Type) : full (@nil (string * list X)).
Proof. constructor. Qed.

Lemma edges_under_key t k :
  map snd (filter (fun e => String.eqb k (fst e)) (all_edges t))
  = flat_map (fun rel => if String.eqb k rel then file_edges t rel else []) (php_files t).
Proof.
  unfold all_edges. induction (php_files t) as [|rel files IH]; simpl; [reflexivity|].
  rewrite filter_app, map_app, IH. f_equal.
  induction (file_edges t rel) as [|e es IHe]; simpl.
  - destruct (String.eqb k rel); reflexivity.
  - destruct (String.eqb k rel); simpl in *; [f_equal|]; assumption.
Qed.


(** The entries of a file in the include map, and the shape of the map. *)
Lemma include_map_spec t :
  exists deps,
    find_include_dependencies t = Ret deps
    /\ NoDup (Dict.keys deps) /\ full deps
    /\ forall k, entries k deps
                 = flat_map (fun rel => if String.eqb k rel then file_edges t rel else [])
                            (php_files t).
Proof.
  eexists. split; [apply find_include_dependencies_ret|]. split; [|split].
  - apply nodup_fold_append. constructor.
  - apply full_fold_append, full_nil.
  - intros k. rewrite entries_fold_append. apply edges_under_key.
Qed.


(* ------------------------------------------------------------------------- *)
(** ** The assembler *)

Section MainFacts.
Variable re_search : string -> string -> bool.
Variables (t : Tree) (h : Host) (args : Args) (sources sinks : list string).

(** What a written document is made of. *)
Lemma main_steps_inv doc locals :
  main_steps re_search t h args sources sinks = Ret (doc, locals) ->
  exists sp call_graph function_defs all_sources all_sinks include_deps,
    find_function_at_line t (arg_file args) (arg_line args) = Ret (Some sp)
    /\ Str.nonempty (fst (fst sp)) = true
    /\ joern_step h args = Ret locals
    /\ build_function_call_graph t = Ret call_graph
    /\ find_function_definitions t = Ret function_defs
    /\ analyze_sources_sinks_in_project re_search t sources sinks
       = Ret (all_sources, all_sinks)
    /\ analyze_sources_sinks re_search t (arg_file args) sources sinks
       = Ret (r_sources_in_target doc, r_sinks_in_target doc)
    /\ find_include_dependencies t = Ret include_deps
    /\ r_joern_usages doc = joern_usages locals
    /\ r_cross_file_taint_paths doc
       = cross_file_paths_of args (r_sources_in_target doc) all_sinks
           (files_including (arg_file args) include_deps)
    /\ r_function_chains doc
       = called_from_chains args sp (r_sources_in_target doc) (r_sinks_in_target doc)
           call_graph
         ++ calls_chains args (fst (fst sp)) function_defs (calls_in t (arg_file args))
    /\ r_target doc
       = {| t_file := arg_file args; t_line := arg_line args;
            t_function := fst (fst sp);
            t_start_line := snd (fst sp); t_end_line := snd sp |}.
Proof.
  unfold main_steps.
  destruct (find_function_at_line t (arg_file args) (arg_line args)) as [[sp|]|e];
    simpl; try discriminate.
  destruct (Str.nonempty (fst (fst sp))) eqn:Hne; simpl; try discriminate.
  destruct (joern_step h args) as [locals'|e]; simpl; try discriminate.
  destruct (find_function_definitions t) as [function_defs|e]; simpl; try discriminate.
  destruct (build_function_call_graph t) as [call_graph|e]; simpl; try discriminate.
  destruct (analyze_sources_sinks_in_project re_search t sources sinks)
    as [[all_sources all_sinks]|e]; simpl; try discriminate.
  destruct (analyze_sources_sinks re_search t (arg_file args) sources sinks)
    as [[target_sources target_sinks]|e]; simpl; try discriminate.
  destruct (find_include_dependencies t) as [include_deps|e]; simpl; try discriminate.
  rewrite extract_function_calls_ret. simpl.
  intros H. inversion H; subst. simpl.
  exists sp, call_graph, function_defs, all_sources, all_sinks, include_deps.
  repeat (split; [first [reflexivity | assumption]|]). reflexivity.
Qed.

(** Once the target is located, only step 3 can keep the document from
    being written. *)
Lemma main_steps_total sp locals :
  find_function_at_line t (arg_file args) (arg_line args) = Ret (Some sp) ->
  Str.nonempty (fst (fst sp)) = true ->
  joern_step h args = Ret locals ->
  exists doc, main_steps re_search t h args sources sinks = Ret (doc, locals).
Proof.
  intros Hf Hne Hj. unfold main_steps. rewrite Hf. simpl. rewrite Hne. simpl.
  rewrite Hj. simpl.
  rewrite find_function_definitions_ret, build_function_call_graph_ret. simpl.
  rewrite scan_project_ret. simpl.
  destruct (analyze_sources_sinks_ret re_search t (arg_file args) sources sinks)
    as [found ->]. simpl.
  rewrite find_include_dependencies_ret. simpl.
  rewrite extract_function_calls_ret. simpl.
  eexists. reflexivity.
Qed.

Lemma written_inv doc :
  written (main re_search t h args sources sinks) = Some doc ->
  exists locals,
    main_steps re_search t h args sources sinks = Ret (doc, locals)
    /\ outcome (main re_search t h args sources sinks) = clean_up locals.
Proof.
  unfold main.
  destruct (main_steps re_search t h args sources sinks) as [[doc' locals]|e]; simpl.
  - intros H. inversion H; subst. eauto.
  - discriminate.
Qed.

End MainFacts.

(* ------------------------------------------------------------------------- *)
(** ** Step 3: the Joern analysis and the clean-up *)

(** When no Joern directory is found, or the CPG generation fails, the
    handler runs with [cpg_file] still unbound. *)
Lemma joern_step_unbound h args e :
  detect_joern_dir h = Raise e
  \/ (exists joern_dir, detect_joern_dir h = Ret joern_dir
                        /\ gen_cpg h (arg_src args) joern_dir = Raise e) ->
  is_Exception e = true ->
  joern_step h args = Ret {| cpg_file := None; joern_usages := [] |}.
Proof.
  intros [Hd | [joern_dir [Hd Hg]]] He; unfold joern_step, joern_failed.
  - rewrite Hd, He. reflexivity.
  - rewrite Hd, Hg, He. reflexivity.
Qed.

(** C3, the behaviour of the code where it departs from the claim. In a
    run whose target is located and in which no Joern directory is found
    or the CPG generation fails with an ordinary exception, the failure is
    caught and the document is written with an empty list of usages, but
    the clean-up that follows reads the local [cpg_file], which was never
    bound: [main] ends with an [UnboundLocalError] that nothing catches. *)
Theorem joern_failure_escapes re_search t h args sources sinks sp e :
  find_function_at_line t (arg_file args) (arg_line args) = Ret (Some sp) ->
  Str.nonempty (fst (fst sp)) = true ->
  detect_joern_dir h = Raise e
  \/ (exists joern_dir, detect_joern_dir h = Ret joern_dir
                        /\ gen_cpg h (arg_src args) joern_dir = Raise e) ->
  is_Exception e = true ->
  exists doc,
    written (main re_search t h args sources sinks) = Some doc
    /\ r_joern_usages doc = []
    /\ outcome (main re_search t h args sources sinks)
       = Raise (UnboundLocalError "cpg_file").
Proof.
  intros Hf Hne Hfail He.
  pose proof (joern_step_unbound h args Hfail He) as Hj.
  destruct (@main_steps_total re_search t h args sources sinks sp _ Hf Hne Hj) as [doc Hm].
  exists doc. unfold main. rewrite Hm. simpl. split; [reflexivity|]. split; [|reflexivity].
  destruct (@main_steps_inv re_search t h args sources sinks _ _ Hm)
    as (sp' & cg & fd & aso & asi & inc & _ & _ & _ & _ & _ & _ & _ & _ & Hu & _).
  rewrite Hu. reflexivity.
Qed.

(* ------------------------------------------------------------------------- *)
(** ** Step 8: cross-file taint paths *)






Lemma mem_entries (V : Type) (d : Dict.t (list V)) f :
  full d -> (entries f d <> [] <-> Dict.mem f d = true).
Proof.
  unfold entries, Dict.mem. intros Hf.
  destruct (Dict.lookup f d) as [l|] eqn:E.
  - split; [reflexivity|]. intros _. eapply full_lookup; eauto.
  - split; [congruence|discriminate].
Qed.



(* ------------------------------------------------------------------------- *)
(** ** Step 9: function chains *)






(* ------------------------------------------------------------------------- *)
(** ** The call extractor *)

Lemma ids_idc x : ids x = true -> idc x = true.
Proof. all_chars x. Qed.

Lemma idc_not_space x : idc x = true -> Str.is_space x = false.
Proof. all_chars x. Qed.

Lemma idc_not_lparen x : idc x = true -> Ascii.eqb x lparen = false.
Proof. all_chars x. Qed.

Lemma space_not_lparen x : Str.is_space x = true -> Ascii.eqb x lparen = false.
Proof. all_chars x. Qed.

Lemma space_not_idc x : Str.is_space x = true -> idc x = false.
Proof. all_chars x. Qed.

Lemma lparen_not_idc x : Ascii.eqb x lparen = true -> idc x = false.
Proof. all_chars x. Qed.

Lemma takewhile_forall p l : Forall (fun x => p x = true) (takewhile p l).
Proof.
  induction l as [|x l IH]; simpl; [constructor|].
  destruct (p x) eqn:E; constructor; assumption.
Qed.

Lemma takewhile_dropwhile p l : takewhile p l ++ Str.dropwhile p l = l.
Proof.
  induction l as [|x l IH]; simpl; [reflexivity|].
  destruct (p x); simpl; [f_equal; assumption|reflexivity].
Qed.

(** When what follows [c*] cannot start with a character of [c], only the
    longest repetition can succeed. *)
Lemma star_flat_map (B : Type) p : forall s (f : list ascii * list ascii -> list B),
  (forall m x r, p x = true -> f (m, x :: r) = []) ->
  flat_map f (star_ms p s) = f (takewhile p s, Str.dropwhile p s).
Proof.
  induction s as [|x s IH]; intros f Hf; simpl.
  - apply app_nil_r.
  - destruct (p x) eqn:E; simpl.
    + rewrite flat_map_app. simpl. rewrite (Hf [] x s E), !app_nil_r.
      rewrite flat_map_concat_map, map_map, <- flat_map_concat_map.
      rewrite (IH (fun mr => f (x :: fst mr, snd mr))).
      * reflexivity.
      * intros m y r Hy. simpl. apply Hf. assumption.
    + apply app_nil_r.
Qed.

Lemma ms_Seq ic r1 r2 bol s :
  ms ic (Seq r1 r2) bol s
  = flat_map
      (fun m1 =>
         map (fun m2 => MRes (consumed m1 ++ consumed m2)
                             (later_group (group m2) (group m1))
                             (rest m2))
             (ms ic r2 (bol && is_nil (consumed m1)) (rest m1)))
      (ms ic r1 bol s).
Proof. reflexivity. Qed.

Lemma flat_map_map (A B C : Type) (f : B -> list C) (g : A -> B) l :
  flat_map f (map g l) = flat_map (fun a => f (g a)) l.
Proof. induction l as [|a l IH]; simpl; [reflexivity|]. rewrite IH. reflexivity. Qed.

(** The tail of every call pattern: white space, then the parenthesis. *)
Lemma ms_paren_tail bol s :
  ms false paren_tail bol s
  = match Str.dropwhile Str.is_space s with
    | y :: r =>
        if Ascii.eqb y lparen
        then [MRes (takewhile Str.is_space s ++ [y]) None r] else []
    | [] => []
    end.
Proof.
  unfold paren_tail. rewrite ms_Seq. cbn [ms]. rewrite flat_map_map.
  rewrite (star_flat_map Str.is_space s).
  - cbn [fst snd consumed rest group]. destruct (Str.dropwhile Str.is_space s) as [|y r]; [reflexivity|].
    cbn [cls_match]. destruct (Ascii.eqb y lparen); reflexivity.
  - intros m x r Hx. cbn [fst snd consumed rest group cls_match].
    rewrite (space_not_lparen x Hx). reflexivity.
Qed.

(** The captured identifier: its first character, then every way of
    going on, longest first. *)
Lemma ms_ident bol s :
  ms false ident bol s
  = match s with
    | x :: s' =>
        if ids x
        then map (fun mr => MRes (x :: fst mr) (Some (x :: fst mr)) (snd mr))
                 (star_ms idc s')
        else []
    | [] => []
    end.
Proof.
  unfold ident. cbn [ms]. destruct s as [|x s']; [reflexivity|].
  change (cls_match false id_start x) with (ids x).
  destruct (ids x); [|reflexivity].
  cbn [flat_map consumed rest group]. rewrite app_nil_r, !map_map.
  reflexivity.
Qed.

(** The free-call pattern has at most one way of matching at a position,
    the one [free_call_at] reads off. *)
Lemma ms_free_call bol s :
  ms false free_call bol s
  = match free_call_at s with Some m => [m] | None => [] end.
Proof.
  change free_call with (Seq ident paren_tail).
  rewrite ms_Seq, ms_ident.
  destruct s as [|x s']; [reflexivity|].
  unfold free_call_at.
  destruct (ids x) eqn:Hx; [|reflexivity].
  rewrite flat_map_map.
  rewrite (star_flat_map idc s').
  - cbn [fst snd consumed rest group is_nil]. rewrite andb_false_r.
    rewrite ms_paren_tail.
    destruct (Str.dropwhile Str.is_space (Str.dropwhile idc s')) as [|y r3]; [reflexivity|].
    destruct (Ascii.eqb y lparen); reflexivity.
  - intros m y r Hy. cbn [fst snd consumed rest group is_nil]. rewrite andb_false_r.
    rewrite ms_paren_tail. cbn [Str.dropwhile].
    rewrite (idc_not_space y Hy), (idc_not_lparen y Hy). reflexivity.
Qed.

Lemma match_free_call bol s : match_at false free_call bol s = free_call_at s.
Proof.
  unfold match_at. rewrite ms_free_call. destruct (free_call_at s); reflexivity.
Qed.

(** What a match of the free-call pattern looks like. *)
Lemma free_call_at_shape s m :
  free_call_at s = Some m ->
  s = consumed m ++ rest m
  /\ (exists x s', s = x :: s' /\ idc x = true)
  /\ exists name tail,
       consumed m = name ++ tail /\ group m = Some name
       /\ Forall (fun x => idc x = true) name
       /\ Forall (fun x => idc x = false) tail.
Proof.
  unfold free_call_at. destruct s as [|x s']; [discriminate|].
  destruct (ids x) eqn:Hx; [|discriminate].
  destruct (Str.dropwhile Str.is_space (Str.dropwhile idc s')) as [|y r3] eqn:Hd; [discriminate|].
  destruct (Ascii.eqb y lparen) eqn:Hy; [|discriminate].
  intros H. inversion H; subst; clear H. cbn [consumed rest group].
  split; [|split].
  - rewrite <- (takewhile_dropwhile idc s') at 1.
    rewrite <- (takewhile_dropwhile Str.is_space (Str.dropwhile idc s')) at 1.
    rewrite Hd. simpl. rewrite <- !app_assoc. reflexivity.
  - exists x, s'. split; [reflexivity|]. apply ids_idc. assumption.
  - exists (x :: takewhile idc s'), (takewhile Str.is_space (Str.dropwhile idc s') ++ [y]).
    split; [reflexivity|]. split; [reflexivity|]. split.
    + constructor; [apply ids_idc; assumption | apply takewhile_forall].
    + apply Forall_app. split.
      * eapply Forall_impl; [|apply takewhile_forall]. apply space_not_idc.
      * constructor; [apply lparen_not_idc; assumption | constructor].
Qed.

(** Every match [re.finditer] yields is the match at some position. *)
Lemma finditer_from_sound ic r : forall s bol skip m,
  In m (finditer_from ic r bol skip s) ->
  exists pre s' b, s = pre ++ s' /\ match_at ic r b s' = Some m.
Proof.
  induction s as [|x s IH]; intros bol skip m H; simpl in H.
  - destruct skip; [|contradiction].
    destruct (match_at ic r bol []) as [m0|] eqn:E; [|contradiction].
    destruct H as [<-|[]]. exists [], [], bol. auto.
  - destruct skip as [|n].
    + destruct (match_at ic r bol (x :: s)) as [m0|] eqn:E.
      * destruct H as [<-|H].
        -- exists [], (x :: s), bol. auto.
        -- destruct (IH _ _ _ H) as [pre [s' [b [-> Hm]]]].
           exists (x :: pre), s', b. auto.
      * destruct (IH _ _ _ H) as [pre [s' [b [-> Hm]]]].
        exists (x :: pre), s', b. auto.
    + destruct (IH _ _ _ H) as [pre [s' [b [-> Hm]]]].
      exists (x :: pre), s', b. auto.
Qed.

(** An identifier character that follows a character outside the
    identifier set cannot lie inside a match that started earlier. *)
Lemma no_crossing : forall name tail P c0 x w,
  name ++ tail = P ++ c0 :: x :: w ->
  Forall (fun y => idc y = true) name ->
  Forall (fun y => idc y = false) tail ->
  idc c0 = false -> idc x = true -> False.
Proof.
  induction name as [|a name IH]; intros tail P c0 x w E Hn Ht Hc Hx.
  - simpl in E. subst tail. apply Forall_app in Ht. destruct Ht as [_ Ht].
    inversion Ht as [|? ? _ Ht']; subst. inversion Ht' as [|? ? Hx' _]; subst. congruence.
  - inversion Hn as [|? ? Ha Hn']; subst. destruct P as [|p P]; simpl in E.
    + inversion E; subst. congruence.
    + inversion E; subst. eapply IH; eauto.
Qed.

Lemma last_cons_outside c pre :
  idc (last (c :: pre) blank) = false -> idc (last pre blank) = false.
Proof. destruct pre; [intros _; reflexivity | simpl; auto]. Qed.

(** A match that starts inside [pre] ends inside [pre]. *)
Lemma match_stays_before pre s1 m1 m0 :
  pre <> [] ->
  idc (last pre blank) = false ->
  free_call_at s1 = Some m1 ->
  free_call_at (pre ++ s1) = Some m0 ->
  length (consumed m0) <= length pre.
Proof.
  intros Hne Hlast H1 H0.
  destruct (free_call_at_shape _ H1) as [_ [[x [s1' [-> Hx]]] _]].
  destruct (free_call_at_shape _ H0) as [Hs [_ [name [tail [Hc [_ [Hn Ht]]]]]]].
  apply app_eq_app in Hs. destruct Hs as [l [[E1 E2] | [E1 E2]]].
  - rewrite E1, length_app. lia.
  - destruct l as [|y l].
    + rewrite app_nil_r in E1. rewrite E1. lia.
    + simpl in E2. injection E2 as <- _. exfalso.
      rewrite (app_removelast_last blank Hne) in E1.
      rewrite <- app_assoc in E1. simpl in E1. rewrite Hc in E1.
      eapply no_crossing; eauto.
Qed.

(** The free-call pattern finds the identifier that starts after a
    character outside the identifier set. *)
Lemma free_call_found s1 m1 :
  free_call_at s1 = Some m1 ->
  forall pre bol skip,
    idc (last pre blank) = false -> skip <= length pre ->
    exists m, In m (finditer_from false free_call bol skip (pre ++ s1))
              /\ group m = group m1.
Proof.
  intros H1.
  destruct (free_call_at_shape _ H1) as [_ [[x [s1' [Es1 _]]] _]].
  induction pre as [|c pre IH]; intros bol skip Hlast Hskip.
  - assert (skip = 0) by (simpl in Hskip; lia). subst skip.
    rewrite app_nil_l. rewrite Es1. cbn [finditer_from]. rewrite <- Es1.
    rewrite match_free_call, H1. exists m1. split; [left|]; reflexivity.
  - pose proof (last_cons_outside _ _ Hlast) as Hlast'.
    cbn [app finditer_from]. destruct skip as [|n].
    + rewrite match_free_call.
      destruct (free_call_at (c :: pre ++ s1)) as [m0|] eqn:E0.
      * assert (Hb : length (consumed m0) <= length (c :: pre)).
        { apply (@match_stays_before (c :: pre) s1 m1 m0); try assumption. discriminate. }
        destruct (IH false (pred (length (consumed m0))) Hlast') as [m [Hin Hg]].
        { simpl in Hb. lia. }
        exists m. split; [right|]; assumption.
      * apply IH; [assumption|lia].
    + apply IH; [assumption|]. simpl in Hskip. lia.
Qed.

Lemma ms_lit_inv : forall str bol s m,
  In m (ms false (Lit str) bol s) ->
  s = Str.chars str ++ rest m /\ group m = None.
Proof.
  induction str as [|c str IH]; intros bol s m H.
  - simpl in H. destruct H as [<-|[]]. auto.
  - cbn [Lit] in H. rewrite ms_Seq in H. apply in_flat_map in H.
    destruct H as [m1 [H1 H2]]. apply in_map_iff in H2. destruct H2 as [m2 [<- H2]].
    cbn [ms] in H1. destruct s as [|x s']; [contradiction|].
    cbn [cls_match] in H1. destruct (Ascii.eqb x c) eqn:E; [|contradiction].
    apply Ascii.eqb_eq in E. subst x. destruct H1 as [<-|[]].
    cbn [consumed rest group] in *.
    destruct (IH _ _ _ H2) as [E Hg]. rewrite Hg. simpl. rewrite E at 1. auto.
Qed.

(** A match of one of the three specific call shapes: its prefix, then a
    match of the free-call pattern with the same captured name. *)
Lemma specific_call_inv pattern bol s m :
  In pattern [variable_call; member_call; static_call] ->
  In m (ms false pattern bol s) ->
  exists pfx s1 m1,
    s = pfx ++ s1 /\ pfx <> [] /\ idc (last pfx blank) = false
    /\ free_call_at s1 = Some m1 /\ group m = group m1.
Proof.
  intros Hp H.
  assert (Htail : forall b s1 m2 (g : option (list ascii)),
             In m2 (ms false free_call b s1) ->
             free_call_at s1 = Some m2 /\ later_group (group m2) g = group m2).
  { intros b s1 m2 g H2. rewrite ms_free_call in H2.
    destruct (free_call_at s1) as [m'|] eqn:E; [|contradiction].
    destruct H2 as [<-|[]]. split; [reflexivity|].
    destruct (free_call_at_shape _ E) as [_ [_ [name [tail [_ [Hg _]]]]]].
    rewrite Hg. reflexivity. }
  destruct Hp as [<-|[<-|[<-|[]]]].
  - change variable_call with (Seq (Cls (Ch (c_ "$"))) free_call) in H.
    rewrite ms_Seq in H. apply in_flat_map in H.
    destruct H as [m1 [H1 H2]]. apply in_map_iff in H2. destruct H2 as [m2 [<- H2]].
    cbn [ms] in H1. destruct s as [|x s']; [contradiction|].
    cbn [cls_match] in H1. destruct (Ascii.eqb x (c_ "$")) eqn:E; [|contradiction].
    apply Ascii.eqb_eq in E. subst x. destruct H1 as [<-|[]].
    cbn [consumed rest group] in *.
    destruct (Htail _ _ _ None H2) as [Hm Hg].
    exists [c_ "$"], s', m2. repeat split; assumption || reflexivity || discriminate.
  - change member_call with (Seq (Lit "->") free_call) in H.
    rewrite ms_Seq in H. apply in_flat_map in H.
    destruct H as [m1 [H1 H2]]. apply in_map_iff in H2. destruct H2 as [m2 [<- H2]].
    destruct (ms_lit_inv _ _ _ _ H1) as [E Hg1].
    cbn [consumed rest group] in *.
    destruct (Htail _ _ _ (group m1) H2) as [Hm Hg].
    exists (Str.chars "->"), (rest m1), m2. repeat split; assumption || reflexivity || discriminate.
  - change static_call with (Seq (Lit "::") free_call) in H.
    rewrite ms_Seq in H. apply in_flat_map in H.
    destruct H as [m1 [H1 H2]]. apply in_map_iff in H2. destruct H2 as [m2 [<- H2]].
    destruct (ms_lit_inv _ _ _ _ H1) as [E Hg1].
    cbn [consumed rest group] in *.
    destruct (Htail _ _ _ (group m1) H2) as [Hm Hg].
    exists (Str.chars "::"), (rest m1), m2. repeat split; assumption || reflexivity || discriminate.
Qed.

Lemma last_app_outside pre pfx :
  pfx <> [] -> last (pre ++ pfx) blank = last pfx blank.
Proof.
  intros Hne. induction pre as [|c pre IH]; [reflexivity|].
  simpl. destruct (pre ++ pfx) eqn:E; [|assumption].
  apply app_eq_nil in E. destruct E. contradiction.
Qed.

(** Whatever name one of the three specific call shapes captures on a
    line, the free-call pattern captures on that line too. *)
Lemma specific_call_is_free_call pattern line m :
  In pattern [variable_call; member_call; static_call] ->
  In m (finditer false pattern line) ->
  exists m', In m' (finditer false free_call line) /\ group m' = group m.
Proof.
  intros Hp H. unfold finditer in *.
  apply finditer_from_sound in H. destruct H as [pre [s' [b [E Hm]]]].
  apply match_at_in in Hm.
  destruct (specific_call_inv _ _ _ Hp Hm) as [pfx [s1 [m1 [-> [Hne [Hlast [H1 Hg]]]]]]].
  rewrite E, app_assoc.
  destruct (@free_call_found s1 m1 H1 (pre ++ pfx) true 0) as [m' [Hin Hg']].
  - rewrite last_app_outside; assumption.
  - lia.
  - exists m'. split; [assumption|congruence].
Qed.

Lemma in_calls_of_pattern n line pattern m :
  In m (finditer false pattern line) ->
  Str.mem (group1_str m) keywords = false ->
  In {| call_function := group1_str m; call_line := n; call_code := Str.strip line |}
     (calls_of_pattern n line pattern).
Proof.
  intros Hin Hk. unfold calls_of_pattern. apply in_flat_map.
  exists m. split; [assumption|]. rewrite Hk. simpl. auto.
Qed.

Lemma filter_hit (A : Type) (f : A -> bool) x l :
  In x l -> f x = true -> 1 <= length (filter f l).
Proof.
  intros Hin Hf. assert (In x (filter f l)) as H by (apply filter_In; auto).
  destruct (filter f l); [contradiction|simpl; lia].
Qed.

Lemma enumerate_app (A : Type) : forall (l1 l2 : list A) a,
  enumerate a (l1 ++ l2) = enumerate a l1 ++ enumerate (a + len l1) l2.
Proof.
  induction l1 as [|x l1 IH]; intros l2 a; simpl.
  - f_equal. unfold len. simpl. lia.
  - rewrite IH. do 3 f_equal. rewrite len_cons. lia.
Qed.

(** The records of line [1 + i] are part of what the extractor returns. *)
Lemma calls_of_lines_split lines i line :
  nth_error lines i = Some line ->
  exists before after,
    calls_of_lines lines
    = before ++ calls_of_line ((1 + Z.of_nat i)%Z, line) ++ after.
Proof.
  intros H. apply nth_error_split in H. destruct H as [l1 [l2 [-> Hlen]]].
  unfold calls_of_lines. rewrite enumerate_app. simpl. rewrite flat_map_app. simpl.
  unfold len. rewrite Hlen. eauto.
Qed.

(** C10. In a readable file, when a line holds a variable-indirect call,
    a member call or a static call whose name is not one of the excluded
    keywords, the call extractor returns at least two records with that
    name and that line number: one from the pattern of the specific
    shape and one from the free-call pattern, which matches the same
    identifier before the parenthesis. *)
Theorem specific_call_recorded_twice t p text i line pattern m :
  readable t p text ->
  nth_error (Str.readlines text) i = Some line ->
  In pattern [variable_call; member_call; static_call] ->
  In m (finditer false pattern line) ->
  Str.mem (group1_str m) keywords = false ->
  let n := (1 + Z.of_nat i)%Z in
  let record :=
    {| call_function := group1_str m; call_line := n; call_code := Str.strip line |} in
  exists calls,
    extract_function_calls t p = Ret calls
    /\ In record (calls_of_pattern n line pattern)
    /\ In record (calls_of_pattern n line free_call)
    /\ 2 <= length (filter (same_call (group1_str m) n) calls).
Proof.
  intros [He Ho] Hl Hp Hm Hk n record.
  rewrite extract_function_calls_ret. unfold calls_in. rewrite He, Ho.
  eexists. split; [reflexivity|].
  destruct (specific_call_is_free_call _ _ Hp Hm) as [m' [Hm' Hg]].
  assert (Hname : group1_str m' = group1_str m).
  { unfold group1_str, group1. rewrite Hg. reflexivity. }
  assert (Hspec : In record (calls_of_pattern n line pattern)).
  { apply in_calls_of_pattern; assumption. }
  assert (Hfree : In record (calls_of_pattern n line free_call)).
  { unfold record. rewrite <- Hname. apply in_calls_of_pattern; [assumption|].
    rewrite Hname. assumption. }
  split; [assumption|]. split; [assumption|].
  assert (Hsame : same_call (group1_str m) n record = true).
  { unfold same_call, record. simpl. rewrite String.eqb_refl, Z.eqb_refl. reflexivity. }
  destruct (calls_of_lines_split _ _ Hl) as [before [after ->]].
  fold n. rewrite !filter_app, !length_app.
  assert (2 <= length (filter (same_call (group1_str m) n) (calls_of_line (n, line)))); [|lia].
  unfold calls_of_line, call_patterns. cbn [flat_map fst snd].
  rewrite !filter_app, !length_app.
  pose proof (filter_hit _ _ _ Hfree Hsame) as H1.
  pose proof (filter_hit _ _ _ Hspec Hsame) as H2.
  destruct Hp as [<-|[<-|[<-|[]]]]; lia.
Qed.

(* ------------------------------------------------------------------------- *)
(** ** The header of a definition is read as a call *)






Lemma blank_outside : idc blank = false.
Proof. reflexivity. Qed.











(* ------------------------------------------------------------------------- *)
(** ** More on the function locator *)

Lemma locate_lines_inside pre d post name line end_line :
  def_name d = Some name ->
  (len pre + 1 <= line)%Z ->
  (exists mid d' post',
      post = mid ++ d' :: post' /\ Forall no_def mid /\ is_def d'
      /\ end_line = (len pre + 1 + len mid)%Z)
  \/ (Forall no_def post /\ end_line = len (pre ++ d :: post)) ->
  (line <= end_line)%Z ->
  locate_lines (pre ++ d :: post) line = (name, (len pre + 1)%Z, end_line).
Proof.
  intros Hname Hlo Hend Hhi. unfold locate_lines.
  destruct (@loop_past line pre (d :: post) 1%Z None None) as [cf [fs Hpast]]; [lia|].
  rewrite Hpast. clear Hpast.
  unfold def_name in Hname.
  destruct (func_search d) as [m|] eqn:Hd; [|discriminate].
  destruct (def_name_nonempty _ Hd) as [name' [Hg Hne]].
  assert (name' = name) by congruence. subst name'.
  assert (Hstep : locate_loop (d :: post) (1 + len pre) cf fs line
                  = locate_loop post (1 + len pre + 1) (Some name) (Some (1 + len pre)%Z) line).
  { cbn [locate_loop]. rewrite Hd, Hname.
    destruct cf as [f|], fs as [s|]; try reflexivity.
    replace (line <=? 1 + len pre - 1)%Z with false
      by (symmetry; apply Z.leb_gt; lia).
    rewrite andb_false_r. reflexivity. }
  rewrite Hstep. clear Hstep.
  pose proof (len_nonneg pre) as Hpre.
  destruct Hend as [[mid [d' [post' [-> [Hmid [Hd' ->]]]]]] | [Hpost ->]].
  - rewrite (@loop_closes line mid d' post' (1 + len pre + 1)%Z name (1 + len pre)%Z);
      try assumption; try lia.
    cbn iota. span_eq.
  - replace post with (post ++ []) at 1 by apply app_nil_r.
    rewrite loop_skip by assumption. cbn [locate_loop truthy_name truthy_int].
    rewrite Hne.
    replace (1 + len pre =? 0)%Z with false by (symmetry; apply Z.eqb_neq; lia).
    replace (1 + len pre <=? line)%Z with true by (symmetry; apply Z.leb_le; lia).
    replace (line <=? len (pre ++ d :: post))%Z with true
      by (symmetry; apply Z.leb_le; assumption).
    cbn [andb negb]. span_eq.
Qed.

Lemma locate_lines_before pre rest line :
  Forall no_def pre -> (line <= len pre)%Z ->
  locate_lines (pre ++ rest) line = ("global"%string, 1%Z, len (pre ++ rest)).
Proof.
  intros Hpre Hlt. unfold locate_lines. rewrite loop_skip by assumption.
  destruct (@loop_before line rest (1 + len pre)%Z None None) as [cf [fs [-> Hfs]]];
    [intros s Hs; discriminate | lia |].
  destruct cf as [f|], fs as [s|]; try reflexivity.
  replace (s <=? line)%Z with false
    by (symmetry; apply Z.leb_gt; apply Hfs; reflexivity).
  rewrite andb_false_r. reflexivity.
Qed.

Lemma locate_lines_outside lines line :
  (line < 1 \/ len lines < line)%Z ->
  locate_lines lines line = ("global"%string, 1%Z, len lines).
Proof.
  intros H. destruct (locate_lines_cases lines line) as [E | [name [s [e [_ Hb]]]]];
    [exact E | lia].
Qed.

Lemma no_def_dec l : {is_def l} + {no_def l}.
Proof.
  unfold is_def, no_def. destruct (func_search l); [left; discriminate | right; reflexivity].
Qed.

(** The last definition of a list of lines, and the first. *)
Lemma last_definition : forall ls,
  Forall no_def ls
  \/ exists pre d mid, ls = pre ++ d :: mid /\ is_def d /\ Forall no_def mid.
Proof.
  induction ls as [|x ls IH]; [left; constructor|].
  destruct IH as [Hnone | [pre [d [mid [-> [Hd Hmid]]]]]].
  - destruct (no_def_dec x) as [Hx|Hx].
    + right. exists [], x, ls. auto.
    + left. constructor; assumption.
  - right. exists (x :: pre), d, mid. auto.
Qed.

Lemma first_definition : forall ls,
  Forall no_def ls
  \/ exists mid d post, ls = mid ++ d :: post /\ Forall no_def mid /\ is_def d.
Proof.
  induction ls as [|x ls IH]; [left; constructor|].
  destruct (no_def_dec x) as [Hx|Hx].
  - right. exists [], x, ls. auto.
  - destruct IH as [Hnone | [mid [d [post [-> [Hmid Hd]]]]]].
    + left. constructor; assumption.
    + right. exists (x :: mid), d, post. split; [reflexivity|]. split; [constructor|]; assumption.
Qed.

Lemma is_def_name d : is_def d -> exists name, def_name d = Some name.
Proof.
  unfold is_def, def_name. destruct (func_search d) as [m|] eqn:E; [|congruence].
  intros _. destruct (def_name_nonempty _ E) as [name [Hg _]]. eauto.
Qed.

(** What the locator computes on the lines of a file, by cases. *)
Lemma locate_lines_spec lines line :
  (locate_lines lines line = ("global"%string, 1%Z, len lines)
   /\ ((line < 1)%Z \/ (len lines < line)%Z
       \/ Forall no_def (firstn (Z.to_nat line) lines)))
  \/ exists pre d mid post name,
       lines = pre ++ d :: mid ++ post
       /\ def_name d = Some name
       /\ Forall no_def mid
       /\ (post = [] \/ exists d' post', post = d' :: post' /\ is_def d')
       /\ (len pre + 1 <= line <= len pre + 1 + len mid)%Z
       /\ locate_lines lines line
          = (name, (len pre + 1)%Z, (len pre + 1 + len mid)%Z).
Proof.
  destruct (Z_lt_le_dec line 1) as [Hlow|Hlow].
  { left. split; [apply locate_lines_outside|]; auto. }
  destruct (Z_lt_le_dec (len lines) line) as [Hhigh|Hhigh].
  { left. split; [apply locate_lines_outside|]; auto. }
  assert (Hsplit : lines = firstn (Z.to_nat line) lines ++ skipn (Z.to_nat line) lines)
    by (symmetry; apply firstn_skipn).
  assert (Hlen : len (firstn (Z.to_nat line) lines) = line).
  { unfold len in *. rewrite length_firstn. lia. }
  set (A := firstn (Z.to_nat line) lines) in *.
  set (B := skipn (Z.to_nat line) lines) in *.
  destruct (last_definition A) as [Hnone | [pre [d [mid1 [EA [Hd Hmid1]]]]]].
  - left. split; [|auto]. rewrite Hsplit. apply locate_lines_before; [assumption|lia].
  - right. destruct (is_def_name Hd) as [name Hname].
    assert (HlenA : (len pre + 1 + len mid1 = line)%Z).
    { rewrite <- Hlen, EA, len_app, len_cons. lia. }
    pose proof (len_nonneg mid1) as Hm1.
    destruct (first_definition B) as [HnoB | [mid2 [d' [post' [EB [Hmid2 Hd']]]]]].
    + exists pre, d, (mid1 ++ B), [], name.
      assert (E : lines = pre ++ d :: (mid1 ++ B) ++ []).
      { rewrite app_nil_r, Hsplit at 1. rewrite EA, <- app_assoc. reflexivity. }
      split; [exact E|]. split; [assumption|].
      split; [apply Forall_app; auto|]. split; [auto|].
      pose proof (len_nonneg B) as HB.
      split; [rewrite len_app; lia|].
      rewrite E at 1. rewrite app_nil_r.
      apply locate_lines_inside; try assumption; try lia.
      * right. split; [apply Forall_app; auto|].
        rewrite !len_app, !len_cons, !len_app. lia.
      * rewrite len_app. lia.
    + exists pre, d, (mid1 ++ mid2), (d' :: post'), name.
      assert (E : lines = pre ++ d :: (mid1 ++ mid2) ++ d' :: post').
      { rewrite Hsplit at 1. rewrite EA, EB, <- !app_assoc. reflexivity. }
      split; [exact E|]. split; [assumption|].
      split; [apply Forall_app; auto|]. split; [right; eauto|].
      pose proof (len_nonneg mid2) as Hm2.
      split; [rewrite len_app; lia|].
      rewrite E at 1.
      apply locate_lines_inside; try assumption; try lia.
      * left. exists (mid1 ++ mid2), d', post'. split; [reflexivity|].
        split; [apply Forall_app; auto|]. split; [assumption|reflexivity].
      * rewrite len_app. lia.
Qed.

(** X1. For a readable file, a line number below 1 or beyond the last
    line yields the span named global over the whole file, also when the
    file ends inside a function. *)
Theorem line_outside_file_is_global t p text line :
  readable t p text ->
  (line < 1 \/ len (Str.readlines text) < line)%Z ->
  find_function_at_line t p line
  = Ret (Some ("global"%string, 1%Z, len (Str.readlines text))).
Proof.
  intros Hr H. rewrite (find_function_readable line Hr).
  rewrite locate_lines_outside by assumption. reflexivity.
Qed.

(** X2. For a readable file and any line, what the locator returns is
    decided by the nearest recognized definition at or before the line:
    when there is one and the line is inside the file, the result is its
    name with the span from its line to the line before the next
    recognized definition (or the last line); otherwise -- no definition
    at or before the line, or a line outside the file -- it is the span
    named global over the whole file. *)
Theorem locator_returns_nearest_definition t p text line :
  readable t p text ->
  let lines := Str.readlines text in
  (find_function_at_line t p line = Ret (Some ("global"%string, 1%Z, len lines))
   /\ ((line < 1)%Z \/ (len lines < line)%Z
       \/ Forall no_def (firstn (Z.to_nat line) lines)))
  \/ exists pre d mid post name,
       lines = pre ++ d :: mid ++ post
       /\ def_name d = Some name
       /\ Forall no_def mid
       /\ (post = [] \/ exists d' post', post = d' :: post' /\ is_def d')
       /\ (len pre + 1 <= line <= len pre + 1 + len mid)%Z
       /\ find_function_at_line t p line
          = Ret (Some (name, (len pre + 1)%Z, (len pre + 1 + len mid)%Z)).
Proof.
  intros Hr lines. rewrite (find_function_readable line Hr). fold lines.
  destruct (locate_lines_spec lines line)
    as [[E H] | (pre & d & mid & post & name & E1 & E2 & E3 & E4 & E5 & E6)].
  - left. rewrite E. auto.
  - right. exists pre, d, mid, post, name. rewrite E6. auto 10.
Qed.

(* ------------------------------------------------------------------------- *)
(** ** More on the call extractor *)

(** Records made line by line come in line order, and each comes from a
    line of the file. *)
Lemma flat_enumerate_sorted (A X : Type) (f : Z * A -> list X) (key : X -> Z) :
  (forall nl x, In x (f nl) -> key x = fst nl) ->
  forall lines a,
    StronglySorted Z.le (map key (flat_map f (enumerate a lines)))
    /\ Forall (fun x => (a <= key x < a + len lines)%Z) (flat_map f (enumerate a lines)).
Proof.
  intros Hkey. induction lines as [|l lines IH]; intros a; simpl.
  - split; constructor.
  - destruct (IH (a + 1)%Z) as [Hs Hr]. rewrite len_cons.
    assert (Hhere : Forall (fun x => key x = a) (f (a, l))).
    { apply Forall_forall. intros x Hx. apply (Hkey (a, l) x Hx). }
    split.
    + rewrite map_app. induction (f (a, l)) as [|x xs IHx]; simpl; [assumption|].
      inversion Hhere as [|? ? Hx Hxs]; subst. constructor; [auto|].
      apply Forall_app. split.
      * apply Forall_map. eapply Forall_impl; [|exact Hxs]. intros y Hy. cbv beta in *. lia.
      * apply Forall_map. eapply Forall_impl; [|exact Hr]. intros y Hy. cbv beta in *. lia.
    + pose proof (len_nonneg lines). apply Forall_app. split.
      * eapply Forall_impl; [|exact Hhere]. intros y Hy. cbv beta in *. lia.
      * eapply Forall_impl; [|exact Hr]. intros y Hy. cbv beta in *. lia.
Qed.

Lemma in_flat_enumerate (A X : Type) (f : Z * A -> list X) x : forall lines a,
  In x (flat_map f (enumerate a lines)) ->
  exists i l, nth_error lines i = Some l /\ In x (f ((a + Z.of_nat i)%Z, l)).
Proof.
  induction lines as [|l0 lines IH]; intros a H; simpl in H; [contradiction|].
  apply in_app_or in H. destruct H as [H|H].
  - exists 0, l0. replace (a + Z.of_nat 0)%Z with a by lia. auto.
  - destruct (IH _ H) as [i [l [Hn Hin]]]. exists (S i), l. split; [assumption|].
    replace (a + Z.of_nat (S i))%Z with (a + 1 + Z.of_nat i)%Z by lia. assumption.
Qed.

Lemma call_pattern_group pattern :
  In pattern call_patterns -> has_group pattern = true /\ group_nonnull pattern = true.
Proof. intros [<-|[<-|[<-|[<-|[]]]]]; split; reflexivity. Qed.

Lemma forall_chars_of_chars l : Str.chars (Str.of_chars l) = l.
Proof. apply list_ascii_of_string_of_list_ascii. Qed.

Lemma free_call_at_name s m :
  free_call_at s = Some m ->
  exists x xs, group m = Some (x :: xs) /\ ids x = true
               /\ Forall (fun y => idc y = true) xs.
Proof.
  unfold free_call_at. destruct s as [|x s']; [discriminate|].
  destruct (ids x) eqn:Hx; [|discriminate].
  destruct (Str.dropwhile Str.is_space (Str.dropwhile idc s')) as [|y r3]; [discriminate|].
  destruct (Ascii.eqb y lparen); [|discriminate].
  intros H. inversion H; subst. exists x, (takewhile idc s').
  split; [reflexivity|]. split; [assumption|apply takewhile_forall].
Qed.

(** The name a call pattern captures is an identifier. *)
Lemma call_name_is_identifier pattern line m :
  In pattern call_patterns -> In m (finditer false pattern line) ->
  exists x xs,
    Str.chars (group1_str m) = x :: xs /\ ids x = true
    /\ Forall (fun y => idc y = true) xs.
Proof.
  intros Hp Hm. unfold finditer in Hm. apply finditer_from_sound in Hm.
  destruct Hm as [pre [s' [b [_ Hm]]]].
  assert (Hshape : exists m1 s1, free_call_at s1 = Some m1 /\ group m = group m1).
  { destruct Hp as [<-|Hp].
    - rewrite match_free_call in Hm. eauto.
    - apply match_at_in in Hm.
      destruct (specific_call_inv _ _ _ Hp Hm) as (pfx & s1 & m1 & _ & _ & _ & H1 & Hg).
      eauto. }
  destruct Hshape as [m1 [s1 [H1 Hg]]].
  destruct (free_call_at_name _ H1) as (x & xs & Hg1 & Hx & Hxs).
  exists x, xs. unfold group1_str, group1. rewrite Hg, Hg1. simpl.
  rewrite forall_chars_of_chars. auto.
Qed.

Lemma chars_nonempty s x xs : Str.chars s = x :: xs -> Str.nonempty s = true.
Proof. destruct s; [discriminate|reflexivity]. Qed.

(** X3. Every record the call extractor returns comes from a line of the
    file: its line number is the number of that line, its text is the line
    stripped, and its name is what one of the four call patterns captured
    on that line.  The name is never one of the excluded keywords and is
    always an identifier (a letter or underscore, then letters, digits
    and underscores).  A file that is missing or cannot be read yields no
    record. *)
Theorem extracted_calls_come_from_lines t p :
  exists calls,
    extract_function_calls t p = Ret calls
    /\ (forall c, In c calls ->
          exists text i l pattern m,
            readable t p text
            /\ nth_error (Str.readlines text) i = Some l
            /\ call_line c = (1 + Z.of_nat i)%Z
            /\ call_code c = Str.strip l
            /\ In pattern call_patterns
            /\ In m (finditer false pattern l)
            /\ call_function c = group1_str m)
    /\ (forall c, In c calls ->
          Str.mem (call_function c) keywords = false
          /\ exists x xs, Str.chars (call_function c) = x :: xs
                          /\ ids x = true /\ Forall (fun y => idc y = true) xs)
    /\ (exists_at t p = false \/ open_at t p = None -> calls = []).
Proof.
  rewrite extract_function_calls_ret. eexists. split; [reflexivity|].
  assert (Hsound : forall c, In c (calls_in t p) ->
            exists text i l pattern m,
              readable t p text
              /\ nth_error (Str.readlines text) i = Some l
              /\ call_line c = (1 + Z.of_nat i)%Z
              /\ call_code c = Str.strip l
              /\ In pattern call_patterns
              /\ In m (finditer false pattern l)
              /\ call_function c = group1_str m
              /\ Str.mem (call_function c) keywords = false).
  { unfold calls_in. intros c Hc.
    destruct (exists_at t p) eqn:He; [|contradiction].
    destruct (open_at t p) as [text|] eqn:Ho; [|contradiction].
    unfold calls_of_lines in Hc. apply in_flat_enumerate in Hc.
    destruct Hc as [i [l [Hn Hc]]].
    unfold calls_of_line in Hc. cbn [fst snd] in Hc. apply in_flat_map in Hc.
    destruct Hc as [pattern [Hp Hc]].
    unfold calls_of_pattern in Hc. apply in_flat_map in Hc.
    destruct Hc as [m [Hm Hc]].
    destruct (Str.mem (group1_str m) keywords) eqn:Hk; simpl in Hc; [contradiction|].
    destruct Hc as [<-|[]]. simpl.
    exists text, i, l, pattern, m. unfold readable. auto 10. }
  split; [|split].
  - intros c Hc. destruct (Hsound c Hc) as (text & i & l & pattern & m & H).
    exists text, i, l, pattern, m. tauto.
  - intros c Hc. destruct (Hsound c Hc)
      as (text & i & l & pattern & m & _ & _ & _ & _ & Hp & Hm & Hname & Hk).
    split; [assumption|]. rewrite Hname. eapply call_name_is_identifier; eassumption.
  - unfold calls_in. intros [-> | ->]; [reflexivity|].
    destruct (exists_at t p); reflexivity.
Qed.

(** X4. The records the call extractor returns are in file order: their
    line numbers never decrease, and all lie between 1 and the number of
    lines of the file. *)
Theorem extracted_calls_in_line_order t p text :
  readable t p text ->
  exists calls,
    extract_function_calls t p = Ret calls
    /\ StronglySorted Z.le (map call_line calls)
    /\ Forall (fun c => (1 <= call_line c <= len (Str.readlines text))%Z) calls.
Proof.
  intros [He Ho]. rewrite extract_function_calls_ret. unfold calls_in. rewrite He, Ho.
  eexists. split; [reflexivity|].
  destruct (@flat_enumerate_sorted string Call calls_of_line call_line) with
    (lines := Str.readlines text) (a := 1%Z) as [Hs Hr].
  - intros nl c Hc. unfold calls_of_line in Hc. apply in_flat_map in Hc.
    destruct Hc as [pattern [_ Hc]]. unfold calls_of_pattern in Hc.
    apply in_flat_map in Hc. destruct Hc as [m [_ Hc]].
    destruct (negb (Str.mem (group1_str m) keywords)); [|contradiction].
    destruct Hc as [<-|[]]. reflexivity.
  - split; [exact Hs|]. eapply Forall_impl; [|exact Hr]. intros c Hc. cbv beta in *. lia.
Qed.

(* ------------------------------------------------------------------------- *)
(** ** The function index and the call graph *)

Lemma flat_enumerate_in (A X : Type) (f : Z * A -> list X) x : forall lines a i l,
  nth_error lines i = Some l -> In x (f ((a + Z.of_nat i)%Z, l)) ->
  In x (flat_map f (enumerate a lines)).
Proof.
  induction lines as [|l0 lines IH]; intros a i l Hn Hx; [destruct i; discriminate|].
  simpl. apply in_or_app. destruct i as [|i]; simpl in Hn.
  - inversion Hn; subst. left. replace (a + Z.of_nat 0)%Z with a in Hx by lia. assumption.
  - right. apply (IH (a + 1)%Z i l Hn).
    replace (a + 1 + Z.of_nat i)%Z with (a + Z.of_nat (S i))%Z by lia. assumption.
Qed.

Lemma index_lines_spec rel lines defs :
  index_lines rel lines defs
  = fold_left (fun d x => Dict.append (fst x) (snd x) d) (definitions_of_lines rel lines) defs.
Proof.
  unfold index_lines, definitions_of_lines. rewrite fold_left_flat_map.
  apply fold_left_ext. intros d nl. unfold definition_of_line.
  destruct (func_search (snd nl)); reflexivity.
Qed.

(** The index is built by appending the definitions of the walk, each
    under its name. *)
Lemma function_index_spec t :
  find_function_definitions t
  = Ret (fold_left (fun d x => Dict.append (fst x) (snd x) d) (all_definitions t) []).
Proof.
  rewrite find_function_definitions_ret. f_equal.
  unfold all_definitions. rewrite fold_left_flat_map.
  apply fold_left_ext. intros d rel. unfold index_file, definitions_in.
  destruct (open_at t rel); [apply index_lines_spec | reflexivity].
Qed.

Lemma in_definitions_of_lines rel lines name d :
  In (name, d) (definitions_of_lines rel lines)
  <-> exists i line,
        nth_error lines i = Some line /\ def_name line = Some name
        /\ d = {| def_file := rel; def_line := (1 + Z.of_nat i)%Z;
                  def_code := Str.strip line |}.
Proof.
  unfold definitions_of_lines. split.
  - intros H. apply in_flat_enumerate in H. destruct H as [i [line [Hn H]]].
    unfold definition_of_line in H. cbn [fst snd] in H.
    destruct (func_search line) as [m|] eqn:Hs; [|contradiction].
    destruct H as [E|[]]. inversion E; subst.
    exists i, line. split; [assumption|]. split; [|reflexivity].
    unfold def_name. rewrite Hs.
    destruct (def_name_nonempty _ Hs) as [n [Hg _]].
    unfold group1_str. rewrite Hg. reflexivity.
  - intros [i [line [Hn [Hd ->]]]].
    apply (flat_enumerate_in _ _ _ 1%Z _ Hn).
    unfold definition_of_line. cbn [fst snd]. unfold def_name in Hd.
    destruct (func_search line) as [m|]; [|discriminate].
    unfold group1_str. rewrite Hd. left. reflexivity.
Qed.

(** X5. The function index lists, under each name, every recognized
    definition line of that name in the readable [.php] files of the
    walk, in walk order and line order, and nothing else: definitions of
    one name in several files are all kept, a name without definition is
    not a key, and no key has an empty list. *)
Theorem index_lists_every_definition t :
  exists defs,
    find_function_definitions t = Ret defs
    /\ NoDup (Dict.keys defs)
    /\ (forall name, entries name defs = [] <-> Dict.lookup name defs = None)
    /\ (forall name,
          entries name defs
          = map snd (filter (fun x => String.eqb name (fst x)) (all_definitions t)))
    /\ (forall name d,
          In d (entries name defs)
          <-> exists text i line,
                In (def_file d) (php_files t)
                /\ open_at t (def_file d) = Some text
                /\ nth_error (Str.readlines text) i = Some line
                /\ def_name line = Some name
                /\ def_line d = (1 + Z.of_nat i)%Z
                /\ def_code d = Str.strip line).
Proof.
  eexists. split; [apply function_index_spec|].
  set (defs := fold_left (fun d x => Dict.append (fst x) (snd x) d) (all_definitions t) []).
  assert (Hfull : full defs) by (apply full_fold_append, full_nil).
  assert (Hent : forall name,
             entries name defs
             = map snd (filter (fun x => String.eqb name (fst x)) (all_definitions t))).
  { intros name. unfold defs. rewrite entries_fold_append. reflexivity. }
  split; [apply nodup_fold_append; constructor|]. split; [|split; [exact Hent|]].
  - intros name. split; [apply full_entries; assumption|].
    unfold entries. intros ->. reflexivity.
  - intros name d. rewrite Hent. split.
    + intros H. apply in_map_iff in H. destruct H as [[n d'] [E H]]. simpl in E. subst d'.
      apply filter_In in H. destruct H as [H Hn]. simpl in Hn.
      apply String.eqb_eq in Hn. subst n.
      unfold all_definitions in H. apply in_flat_map in H. destruct H as [rel [Hrel H]].
      unfold definitions_in in H. destruct (open_at t rel) as [text|] eqn:Ho; [|contradiction].
      apply in_definitions_of_lines in H. destruct H as [i [line [Hn [Hd ->]]]].
      exists text, i, line. simpl. auto 10.
    + intros (text & i & line & Hrel & Ho & Hn & Hd & Hl & Hc).
      apply in_map_iff. exists (name, d). split; [reflexivity|].
      apply filter_In. split; [|apply String.eqb_refl].
      unfold all_definitions. apply in_flat_map. exists (def_file d). split; [assumption|].
      unfold definitions_in. rewrite Ho. apply in_definitions_of_lines.
      exists i, line. split; [assumption|]. split; [assumption|].
      destruct d; simpl in *; subst; reflexivity.
Qed.

(** X6. The call graph lists, under each name, every record the call
    extractor returns for the [.php] files of the walk whose callee is
    that name, tagged with its file, in walk order, and nothing else; no
    key has an empty list. *)
Theorem call_graph_lists_every_call t :
  exists call_graph,
    build_function_call_graph t = Ret call_graph
    /\ NoDup (Dict.keys call_graph)
    /\ (forall name, entries name call_graph = [] <-> Dict.lookup name call_graph = None)
    /\ (forall name,
          entries name call_graph
          = filter (fun s => String.eqb name (site_function s)) (all_call_sites t))
    /\ (forall name s,
          In s (entries name call_graph)
          <-> site_function s = name
              /\ exists rel call,
                   In rel (php_files t) /\ In call (calls_in t rel)
                   /\ s = tag_call rel call).
Proof.
  eexists. split; [apply build_function_call_graph_ret|].
  set (g := fold_left (fun g s => Dict.append (site_function s) s g) (all_call_sites t) []).
  assert (Hfull : full g) by (apply full_fold_append, full_nil).
  assert (Hent : forall name,
             entries name g
             = filter (fun s => String.eqb name (site_function s)) (all_call_sites t)).
  { intros name. unfold g.
    rewrite (entries_fold_append site_function (fun s => s)). simpl. apply map_id. }
  split; [apply nodup_fold_append; constructor|]. split; [|split; [exact Hent|]].
  - intros name. split; [apply full_entries; assumption|].
    unfold entries. intros ->. reflexivity.
  - intros name s. rewrite Hent, filter_In. unfold all_call_sites. rewrite in_flat_map.
    split.
    + intros [[rel [Hrel Hs]] Hn]. apply String.eqb_eq in Hn.
      split; [congruence|]. apply in_map_iff in Hs. destruct Hs as [call [<- Hc]].
      exists rel, call. auto.
    + intros [Hn [rel [call [Hrel [Hc ->]]]]]. split.
      * exists rel. split; [assumption|]. apply in_map. assumption.
      * apply String.eqb_eq. congruence.
Qed.

(* ------------------------------------------------------------------------- *)
(** ** More on the source/sink scanner *)

Section ScannerMore.
Variable re_search : string -> string -> bool.







End ScannerMore.

(* ------------------------------------------------------------------------- *)
(** ** More on the include resolver *)

Lemma normpath_nonempty p : Str.nonempty (Path.normpath p) = true.
Proof.
  unfold Path.normpath. destruct (String.eqb p EmptyString); [reflexivity|].
  cbv zeta.
  match goal with |- context [if Str.nonempty ?x then _ else _] =>
    destruct (Str.nonempty x) eqn:E end; [exact E|reflexivity].
Qed.

Lemma startswith_char a s :
  Str.startswith s (String a EmptyString) = true -> exists s', s = String a s'.
Proof.
  unfold Str.startswith. destruct s as [|c s]; [discriminate|].
  cbn [String.prefix]. destruct (ascii_dec a c) as [<-|]; [|discriminate].
  intros _. exists s. reflexivity.
Qed.

Lemma resolve_absolute rel included_file :
  Str.startswith included_file "/" = true -> resolve rel included_file = included_file.
Proof.
  intros H. apply startswith_char in H. destruct H as [s ->].
  unfold resolve, Str.startswith. cbn [String.prefix].
  destruct (ascii_dec "." "/") as [E|_]; [discriminate E|].
  destruct (ascii_dec "/" "/") as [_|E]; [destruct s; reflexivity|congruence].
Qed.

Lemma resolve_relative rel included_file :
  Str.startswith included_file "/" = false ->
  resolve rel included_file
  = Path.normpath (Path.join (Path.dirname rel) included_file).
Proof.
  unfold resolve. intros ->.
  destruct (Str.startswith included_file "./" || Str.startswith included_file "../");
    reflexivity.
Qed.

Lemma in_flat_map_key (A : Type) (g : string -> list A) k x files :
  In x (flat_map (fun rel => if String.eqb k rel then g rel else []) files)
  -> In k files /\ In x (g k).
Proof.
  rewrite in_flat_map. intros [rel [Hin Hx]].
  destruct (String.eqb k rel) eqn:E; [|contradiction].
  apply String.eqb_eq in E. subst. auto.
Qed.

(** X9. The include map as a whole.  Its keys are distinct and no key
    holds an empty list.  Every stored entry belongs to a [.php] file of
    the walk that could be read and to a directive of that file whose
    stripped literal passed the guard; the entry is a non-empty string;
    it is either the literal itself or the literal resolved against the
    directory of the including file, and in the second case the resolved
    path exists below the root.  A literal that starts with a slash is
    always stored unchanged, whatever exists on disk. *)
Theorem include_map_is_well_formed t :
  exists deps,
    find_include_dependencies t = Ret deps
    /\ NoDup (Dict.keys deps)
    /\ (forall k, Dict.lookup k deps <> Some [])
    /\ (forall k dep, In dep (entries k deps) ->
          In k (php_files t)
          /\ Str.nonempty dep = true
          /\ exists content included_file,
               open_at t k = Some content
               /\ In included_file (directives content)
               /\ is_literal included_file = true
               /\ (dep = included_file
                   \/ (dep = Path.normpath (Path.join (Path.dirname k) included_file)
                       /\ exists_at t dep = true))
               /\ (Str.startswith included_file "/" = true -> dep = included_file)).
Proof.
  destruct (include_map_spec t) as [deps [Hret [Hnd [Hfull Hent]]]].
  exists deps. split; [assumption|]. split; [assumption|]. split.
  - intros k H. apply (full_lookup _ Hfull H). reflexivity.
  - intros k dep Hin. rewrite Hent in Hin.
    apply in_flat_map_key in Hin. destruct Hin as [Hk Hin].
    split; [assumption|].
    unfold file_edges in Hin. destruct (open_at t k) as [content|] eqn:Ho; [|contradiction].
    unfold edges_of_text in Hin. apply in_map_iff in Hin.
    destruct Hin as [lit [Hdep Hlit]]. apply filter_In in Hlit.
    destruct Hlit as [Hd Hl].
    assert (Hne : Str.nonempty lit = true).
    { unfold is_literal in Hl. apply andb_prop in Hl. tauto. }
    unfold edge_of in Hdep.
    destruct (Str.startswith lit "/") eqn:Hs.
    + rewrite (resolve_absolute k lit Hs) in Hdep.
      assert (dep = lit) as -> by (destruct (exists_at t lit); congruence).
      split; [assumption|]. exists content, lit. tauto.
    + rewrite (resolve_relative k lit Hs) in Hdep.
      destruct (exists_at t (Path.normpath (Path.join (Path.dirname k) lit))) eqn:He.
      * subst dep. split; [apply normpath_nonempty|].
        exists content, lit.
        split; [reflexivity|]. split; [assumption|]. split; [assumption|].
        split; [right; split; [reflexivity|assumption] | intros; congruence].
      * subst dep. split; [assumption|]. exists content, lit.
        split; [reflexivity|]. split; [assumption|]. split; [assumption|].
        split; [left; reflexivity | intros; congruence].
Qed.

(* ------------------------------------------------------------------------- *)
(** ** More on [main] *)

Lemma located_name_nonempty lines line :
  Str.nonempty (fst (fst (locate_lines lines line))) = true.
Proof.
  destruct (locate_lines_spec lines line)
    as [[-> _] | (pre & d & mid & post & name & _ & Hd & _ & _ & _ & ->)];
    [reflexivity|].
  cbn [fst]. unfold def_name in Hd.
  destruct (func_search d) as [m|] eqn:Hs; [|discriminate].
  destruct (def_name_nonempty _ Hs) as [name' [Hg Hne]]. congruence.
Qed.

Section MainMore.
Variable re_search : string -> string -> bool.
Variables (t : Tree) (h : Host) (args : Args) (sources sinks : list string).





Lemma calls_of_app c1 c2 : calls_of (c1 ++ c2) = calls_of c1 ++ calls_of c2.
Proof. unfold calls_of. apply flat_map_app. Qed.

Lemma calls_of_called_from sp ts tk (call_graph : Dict.t (list CallSite)) :
  calls_of (called_from_chains args sp ts tk call_graph) = [].
Proof.
  unfold called_from_chains.
  destruct (Dict.lookup (fst (fst sp)) call_graph) as [sites|]; [|reflexivity].
  induction sites as [|s sites IH]; simpl; [reflexivity|assumption].
Qed.

Lemma calls_of_calls name (function_defs : Dict.t (list Definition_)) calls :
  calls_of (calls_chains args name function_defs calls)
  = flat_map (fun call => map (calls_pair args name call)
                              (entries (call_function call) function_defs)) calls.
Proof.
  unfold calls_chains. induction calls as [|c calls IH]; simpl; [reflexivity|].
  rewrite calls_of_app, IH. f_equal. unfold entries.
  destruct (Dict.lookup (call_function c) function_defs) as [defs|]; [|reflexivity].
  induction defs as [|d defs IHd]; simpl; [reflexivity|]. rewrite IHd. reflexivity.
Qed.

Lemma index_entries function_defs name :
  find_function_definitions t = Ret function_defs ->
  entries name function_defs = definitions_named t name.
Proof.
  rewrite function_index_spec. intros H. inversion H; subst.
  rewrite entries_fold_append. reflexivity.
Qed.

Lemma written_calls doc :
  written (main re_search t h args sources sinks) = Some doc ->
  calls_of (r_function_chains doc)
  = flat_map (fun call => map (calls_pair args (t_function (r_target doc)) call)
                              (definitions_named t (call_function call)))
             (calls_in t (arg_file args)).
Proof.
  intros Hw.
  destruct (written_inv _ _ _ _ _ _ Hw) as [locals [Hm _]].
  destruct (@main_steps_inv re_search t h args sources sinks _ _ Hm)
    as (sp & cg & fd & all_sources & all_sinks & include_deps
        & _ & _ & _ & _ & Hfd & _ & _ & _ & _ & _ & Hchains & Htarget).
  rewrite Hchains, calls_of_app, calls_of_called_from, calls_of_calls, Htarget.
  cbn [app t_function]. apply flat_map_ext. intros call.
  rewrite (index_entries _ Hfd). reflexivity.
Qed.

(** X12. In every run that writes its document the 'calls' chains are,
    in order, one per pair of a call record of the target file and a
    definition of its callee in the index: the calls are those of the
    whole file, whatever the target line is, so that only the name of the
    calling function depends on the line.  A call of a name without
    definition gives no chain. *)
Theorem calls_chain_per_call_and_definition doc :
  written (main re_search t h args sources sinks) = Some doc ->
  calls_of (r_function_chains doc)
  = flat_map (fun call => map (calls_pair args (t_function (r_target doc)) call)
                              (definitions_named t (call_function call)))
             (calls_in t (arg_file args))
  /\ (forall a b,
        In (a, b) (calls_of (r_function_chains doc))
        <-> exists call definition,
              In call (calls_in t (arg_file args))
              /\ In (call_function call, definition) (all_definitions t)
              /\ (a, b) = calls_pair args (t_function (r_target doc)) call definition)
  /\ (forall name,
        definitions_named t name = [] ->
        forall a b, In (a, b) (calls_of (r_function_chains doc)) -> cd_name b <> name).
Proof.
  intros Hw. pose proof (written_calls Hw) as Hall.
  assert (Hiff : forall a b,
            In (a, b) (calls_of (r_function_chains doc))
            <-> exists call definition,
                  In call (calls_in t (arg_file args))
                  /\ In (call_function call, definition) (all_definitions t)
                  /\ (a, b) = calls_pair args (t_function (r_target doc)) call definition).
  { intros a b. rewrite Hall, in_flat_map. split.
    - intros [call [Hc H]]. apply in_map_iff in H. destruct H as [d [E H]].
      unfold definitions_named in H. apply in_map_iff in H.
      destruct H as [[n d'] [E' H]]. simpl in E'. subst d'.
      apply filter_In in H. destruct H as [H Hn]. simpl in Hn.
      apply String.eqb_eq in Hn. subst n. exists call, d. auto.
    - intros (call & d & Hc & Hd & E). exists call. split; [assumption|].
      apply in_map_iff. exists d. split; [auto|].
      unfold definitions_named. apply in_map_iff. exists (call_function call, d).
      split; [reflexivity|]. apply filter_In. split; [assumption|apply String.eqb_refl]. }
  split; [exact Hall|]. split; [exact Hiff|].
  intros name Hnone a b Hin E. apply Hiff in Hin.
  destruct Hin as (call & d & Hc & Hd & Hab). inversion Hab; subst. simpl in Hnone.
  assert (Hd' : In d (definitions_named t (call_function call))).
  { unfold definitions_named. apply in_map_iff. exists (call_function call, d).
    split; [reflexivity|]. apply filter_In. split; [assumption|].
    apply String.eqb_refl. }
  rewrite Hnone in Hd'. contradiction.
Qed.


End MainMore.

(* ------------------------------------------------------------------------- *)
(** ** Pattern loading and the slice query *)

Lemma dropwhile_idem p : forall l, Str.dropwhile p (Str.dropwhile p l) = Str.dropwhile p l.
Proof.
  induction l as [|c l IH]; simpl; [reflexivity|].
  destruct (p c) eqn:E; [assumption|]. simpl. rewrite E. reflexivity.
Qed.

Lemma dropwhile_suffix p : forall l, exists pre, l = pre ++ Str.dropwhile p l.
Proof.
  induction l as [|c l [pre IH]]; simpl; [exists []; reflexivity|].
  destruct (p c); [|exists []; reflexivity].
  exists (c :: pre). simpl. rewrite <- IH. reflexivity.
Qed.

Lemma dropwhile_clean p : forall l, clean_start p (Str.dropwhile p l).
Proof.
  induction l as [|c l IH]; simpl; [exact I|].
  destruct (p c) eqn:E; [assumption|exact E].
Qed.

Lemma clean_dropwhile p l : clean_start p l -> Str.dropwhile p l = l.
Proof. destruct l as [|c l]; simpl; [reflexivity|]. intros ->. reflexivity. Qed.

Lemma clean_prefix p a b : clean_start p (a ++ b) -> clean_start p a.
Proof. destruct a; simpl; auto. Qed.

Lemma strip_chars_fixed l :
  Str.rstrip_chars (Str.lstrip_chars (Str.rstrip_chars (Str.lstrip_chars l)))
  = Str.rstrip_chars (Str.lstrip_chars l).
Proof.
  unfold Str.rstrip_chars, Str.lstrip_chars.
  set (l1 := Str.dropwhile Str.is_space l).
  assert (Hc : clean_start Str.is_space (rev (Str.dropwhile Str.is_space (rev l1)))).
  { destruct (dropwhile_suffix Str.is_space (rev l1)) as [pre Hpre].
    apply (f_equal (@rev ascii)) in Hpre. rewrite rev_involutive, rev_app_distr in Hpre.
    apply clean_prefix with (b := rev pre). rewrite <- Hpre. apply dropwhile_clean. }
  rewrite (clean_dropwhile _ _ Hc), rev_involutive, dropwhile_idem. reflexivity.
Qed.

Lemma strip_idem s : Str.strip (Str.strip s) = Str.strip s.
Proof.
  unfold Str.strip. rewrite forall_chars_of_chars, strip_chars_fixed. reflexivity.
Qed.

Lemma startswith_hash line : Str.startswith line "#" = true -> has_hash line = true.
Proof.
  intros H. apply startswith_char in H. destruct H as [s ->]. reflexivity.
Qed.

Lemma pattern_step_spec patterns raw :
  pattern_step patterns raw = patterns ++ filter plain [Str.strip raw].
Proof.
  unfold pattern_step, plain. cbn [filter]. set (line := Str.strip raw).
  destruct (Str.nonempty line) eqn:Hne; simpl.
  - destruct (Str.startswith line "#") eqn:Hs.
    + rewrite (startswith_hash _ Hs). simpl. symmetry. apply app_nil_r.
    + destruct (has_hash line); simpl.
      * destruct (Str.nonempty (Str.strip (before_hash line))); symmetry; apply app_nil_r.
      * reflexivity.
  - symmetry. apply app_nil_r.
Qed.

Lemma fold_pattern_step lines : forall patterns,
  fold_left pattern_step lines patterns = patterns ++ plain_lines lines.
Proof.
  unfold plain_lines.
  induction lines as [|raw lines IH]; intros patterns; simpl fold_left.
  - symmetry. apply app_nil_r.
  - rewrite IH, pattern_step_spec, <- app_assoc.
    change (map Str.strip (raw :: lines)) with ([Str.strip raw] ++ map Str.strip lines).
    rewrite filter_app. reflexivity.
Qed.

(** X14. What [load_patterns_from_file] keeps.  When reading ends
    normally or with an ordinary exception, the patterns returned are the
    lines read, stripped, that are neither empty nor hold a hash sign, in
    file order: a line with a comment after the pattern contributes
    nothing, like a comment line.  A missing file gives no pattern.  Every
    pattern returned is non-empty, free of hash signs and of surrounding
    white space. *)
Theorem patterns_file_keeps_plain_lines d file_path :
  (forall e, snd (read_lines d file_path) = Some e -> is_Exception e = true) ->
  load_patterns_from_file d file_path
  = Ret (if path_exists d file_path
         then plain_lines (fst (read_lines d file_path))
         else [])
  /\ (forall pattern,
        In pattern (plain_lines (fst (read_lines d file_path))) ->
        Str.nonempty pattern = true
        /\ has_hash pattern = false
        /\ Str.strip pattern = pattern
        /\ exists raw, In raw (fst (read_lines d file_path)) /\ pattern = Str.strip raw).
Proof.
  intros Hexn. split.
  - unfold load_patterns_from_file. destruct (path_exists d file_path); simpl; [|reflexivity].
    rewrite fold_pattern_step. simpl.
    destruct (snd (read_lines d file_path)) as [e|] eqn:E; [|reflexivity].
    rewrite (Hexn e eq_refl). reflexivity.
  - intros pattern H. unfold plain_lines in H. apply filter_In in H.
    destruct H as [H Hp]. apply in_map_iff in H. destruct H as [raw [<- Hraw]].
    unfold plain in Hp. apply andb_prop in Hp. destruct Hp as [Hne Hh].
    apply negb_true_iff in Hh. split; [assumption|]. split; [assumption|].
    split; [apply strip_idem|]. exists raw. auto.
Qed.

Lemma ofor_fail (A S : Type) (body : S -> A -> option S) a : forall l s,
  In a l -> (forall s', body s' a = None) -> ofor l body s = None.
Proof.
  induction l as [|x l IH]; intros s Hin Hbad; [contradiction|].
  simpl. destruct (body s x) as [s'|] eqn:E; [|reflexivity]. simpl.
  destruct Hin as [->|Hin]; [rewrite Hbad in E; discriminate|]. auto.
Qed.

Lemma item_step_good acc item :
  good_item item = true -> item_step acc item = Some (acc ++ item_patterns item).
Proof.
  destruct item as [| | | |items|fields]; try discriminate.
  unfold good_item, item_step, item_patterns, Yaml.get, Yaml.getitem, enabled. simpl.
  destruct (Yaml.truthy _).
  - destruct (Dict.lookup "pattern" fields); [reflexivity|discriminate].
  - intros _. rewrite app_nil_r. reflexivity.
Qed.

Lemma item_step_bad acc item : good_item item = false -> item_step acc item = None.
Proof.
  destruct item as [| | | |items|fields]; try reflexivity.
  unfold good_item, item_step, Yaml.get, Yaml.getitem, enabled. simpl.
  destruct (Yaml.truthy _); [|discriminate].
  destruct (Dict.lookup "pattern" fields); [discriminate|reflexivity].
Qed.

Lemma items_good : forall items acc,
  forallb good_item items = true ->
  ofor items item_step acc = Some (acc ++ flat_map item_patterns items).
Proof.
  induction items as [|item items IH]; intros acc H; simpl.
  - rewrite app_nil_r. reflexivity.
  - simpl in H. apply andb_prop in H. destruct H as [Hi Hs].
    rewrite (item_step_good acc _ Hi). simpl. rewrite (IH _ Hs), <- app_assoc. reflexivity.
Qed.

Lemma categories_good : forall categories acc,
  forallb good_category categories = true ->
  ofor categories category_step acc
  = Some (acc ++ flat_map (fun category => flat_map item_patterns (category_items category))
                          categories).
Proof.
  induction categories as [|c categories IH]; intros acc H; simpl.
  - rewrite app_nil_r. reflexivity.
  - simpl in H. apply andb_prop in H. destruct H as [Hc Hs].
    destruct c as [| | | |items|fields]; try discriminate.
    unfold category_step at 1. simpl. simpl in Hc. rewrite (items_good _ _ Hc). simpl.
    rewrite (IH _ Hs), <- app_assoc. reflexivity.
Qed.

Lemma section_good entries key :
  good_section (Dict.lookup key entries) = true ->
  section_patterns (Yaml.Map entries) key = Some (section_enabled (Dict.lookup key entries)).
Proof.
  unfold section_patterns, good_section, section_enabled, Dict.mem. simpl.
  unfold Dict.mem.
  destruct (Dict.lookup key entries) as [[| | | |items|categories]|];
    try discriminate; [|reflexivity].
  intros H. simpl. rewrite (categories_good _ [] H). reflexivity.
Qed.

Lemma section_bad entries key categories cname items item :
  Dict.lookup key entries = Some (Yaml.Map categories) ->
  In (cname, Yaml.Seq items) categories ->
  In item items ->
  good_item item = false ->
  section_patterns (Yaml.Map entries) key = None.
Proof.
  intros Hk Hc Hi Hbad. unfold section_patterns. simpl. unfold Dict.mem.
  rewrite Hk. simpl.
  apply ofor_fail with (a := Yaml.Seq items).
  - apply in_map_iff. exists (cname, Yaml.Seq items). auto.
  - intros acc. unfold category_step. simpl.
    apply ofor_fail with (a := item); [assumption|].
    intros acc'. apply item_step_bad. assumption.
Qed.

(** X15. A configuration of the expected shape yields its enabled
    patterns.  When each of the sections 'sources' and 'sinks' is absent
    or maps category names to sequences of items, every item being a
    mapping that has a pattern if it is enabled, [load_yaml_config]
    returns, for each section, the patterns of its enabled items in the
    order of the file; an item without the key 'enabled', or with a false
    value under it, is left out, and an absent section gives no
    pattern. *)
Theorem config_yields_enabled_patterns d config_file entries :
  path_exists d config_file = true ->
  safe_load d config_file = Some (Yaml.Map entries) ->
  good_section (Dict.lookup "sources" entries) = true ->
  good_section (Dict.lookup "sinks" entries) = true ->
  load_yaml_config d config_file
  = (section_enabled (Dict.lookup "sources" entries),
     section_enabled (Dict.lookup "sinks" entries)).
Proof.
  intros He Hl Hs Hk. unfold load_yaml_config. rewrite He, Hl. simpl.
  rewrite (section_good _ _ Hs), (section_good _ _ Hk). reflexivity.
Qed.

(** X16. One broken item discards the whole configuration.  If some
    item of some category of 'sources' or of 'sinks' is not a mapping, or
    is enabled and has no pattern, the exception it causes is caught at
    the end of [load_yaml_config] and both lists come back empty: the
    patterns already collected, also those of the other section, are
    lost. *)
Theorem broken_item_discards_everything
        d config_file entries key categories cname items item :
  path_exists d config_file = true ->
  safe_load d config_file = Some (Yaml.Map entries) ->
  key = "sources"%string \/ key = "sinks"%string ->
  Dict.lookup key entries = Some (Yaml.Map categories) ->
  In (cname, Yaml.Seq items) categories ->
  In item items ->
  good_item item = false ->
  load_yaml_config d config_file = ([], []).
Proof.
  intros He Hl Hkey Hk Hc Hi Hbad. unfold load_yaml_config. rewrite He, Hl. simpl.
  pose proof (@section_bad entries key categories cname items item Hk Hc Hi Hbad) as Hnone.
  destruct Hkey as [-> | ->].
  - rewrite Hnone. reflexivity.
  - rewrite Hnone. destruct (section_patterns (Yaml.Map entries) "sources"); reflexivity.
Qed.

(** X17. What [run_joern_slice] returns.  Whenever the query returns,
    every usage is a line of the tool's output stripped of surrounding
    white space, in output order, and none is empty; when the tool is
    missing or exits with a non-zero status the list is empty and no
    exception is raised.  The query raises only when the tool exists and
    starting it raises. *)
Theorem joern_usages_are_stripped_lines h cpg file_path line joern_dir :
  let joern_slice := Path.join joern_dir "joern-slice" in
  let command :=
    [joern_slice; "usages"; cpg; "--file"; file_path; "--line"; str_of_Z line]%string in
  (forall usages,
     run_joern_slice h cpg file_path line joern_dir = Ret usages ->
     (forall u, In u usages -> Str.nonempty u = true /\ Str.strip u = u)
     /\ (usages <> [] ->
         exists result,
           os_exists h joern_slice = true
           /\ subprocess_run h command = Ret result
           /\ returncode result = 0%Z
           /\ usages = filter Str.nonempty (map Str.strip (stdout_lines result))))
  /\ (os_exists h joern_slice = false ->
      run_joern_slice h cpg file_path line joern_dir = Ret [])
  /\ (forall result,
        subprocess_run h command = Ret result -> returncode result <> 0%Z ->
        run_joern_slice h cpg file_path line joern_dir = Ret [])
  /\ (forall e,
        run_joern_slice h cpg file_path line joern_dir = Raise e ->
        os_exists h joern_slice = true /\ subprocess_run h command = Raise e).
Proof.
  intros joern_slice command. unfold run_joern_slice. fold joern_slice. fold command.
  destruct (os_exists h joern_slice) eqn:He; simpl.
  - destruct (subprocess_run h command) as [result|e] eqn:Hrun; simpl.
    + destruct (returncode result =? 0)%Z eqn:Hrc; simpl.
      * apply Z.eqb_eq in Hrc. split; [|split; [discriminate|split]].
        -- intros usages E. inversion E; subst. split.
           ++ intros u Hu. apply filter_In in Hu. destruct Hu as [Hu Hne].
              split; [assumption|]. apply in_map_iff in Hu.
              destruct Hu as [raw [<- _]]. apply strip_idem.
           ++ intros _. exists result. auto.
        -- intros result' E Hne. inversion E; subst. contradiction.
        -- intros e E. discriminate.
      * split; [|split; [discriminate|split]].
        -- intros usages E. inversion E; subst. split; [intros u []|congruence].
        -- reflexivity.
        -- intros e E. discriminate.
    + split; [|split; [discriminate|split]].
      * intros usages E. discriminate.
      * intros result E. discriminate.
      * intros e' E. inversion E; subst. auto.
  - split; [|split; [reflexivity|split]].
    + intros usages E. inversion E; subst. split; [intros u []|congruence].
    + reflexivity.
    + intros e E. discriminate.
Qed.

(* ------------------------------------------------------------------------- *)
(** ** The listing tool *)

Lemma slice_nth (A : Type) (l : list A) (a b : Z) (j : nat) :
  (0 <= a)%Z -> (0 <= b)%Z ->
  nth_error (ExtractCode.slice l a b) j
  = if (a + Z.of_nat j <? Z.min b (len l))%Z
    then nth_error l (Z.to_nat a + j) else None.
Proof.
  intros Ha Hb. unfold ExtractCode.slice, ExtractCode.clamp.
  destruct (Z.ltb_spec a 0) as [|_]; [lia|].
  destruct (Z.ltb_spec b 0) as [|_]; [lia|].
  rewrite nth_error_firstn, nth_error_skipn.
  pose proof (len_nonneg l) as Hn.
  destruct (Nat.ltb_spec j (Z.to_nat (Z.min b (len l) - Z.min a (len l)))) as [H|H];
    destruct (Z.ltb_spec (a + Z.of_nat j) (Z.min b (len l))) as [H'|H']; try lia.
  - f_equal. lia.
  - reflexivity.
Qed.

Lemma slice_length (A : Type) (l : list A) (a b : Z) :
  (0 <= a)%Z -> (0 <= b)%Z ->
  len (ExtractCode.slice l a b) = Z.max 0 (Z.min b (len l) - a).
Proof.
  intros Ha Hb. unfold ExtractCode.slice, ExtractCode.clamp.
  destruct (Z.ltb_spec a 0) as [|_]; [lia|].
  destruct (Z.ltb_spec b 0) as [|_]; [lia|].
  pose proof (len_nonneg l) as Hn. unfold len in *.
  rewrite length_firstn, length_skipn. lia.
Qed.

Lemma read_lines_nth t why p text start_line end_line j :
  open_at t p = Some text ->
  (0 <= end_line)%Z ->
  nth_error (ExtractCode.read_file_lines t why p start_line (Some end_line)) j
  = if (Z.max 1 start_line + Z.of_nat j <=? Z.min end_line (len (Str.readlines text)))%Z
    then line_at (Str.readlines text) (Z.max 1 start_line + Z.of_nat j)
    else None.
Proof.
  intros Ho He. unfold ExtractCode.read_file_lines. rewrite Ho.
  pose proof (len_nonneg (Str.readlines text)) as Hn.
  rewrite slice_nth by lia. unfold line_at.
  destruct (Z.ltb_spec (Z.max 0 (start_line - 1) + Z.of_nat j)
                       (Z.min (Z.min (len (Str.readlines text)) end_line)
                              (len (Str.readlines text)))) as [H|H];
    destruct (Z.leb_spec (Z.max 1 start_line + Z.of_nat j)
                         (Z.min end_line (len (Str.readlines text)))) as [H'|H']; try lia.
  - destruct (Z.ltb_spec (Z.max 1 start_line + Z.of_nat j) 1) as [|_]; [lia|].
    f_equal. lia.
  - reflexivity.
Qed.

Lemma read_lines_length t why p text start_line end_line :
  open_at t p = Some text ->
  (0 <= end_line)%Z ->
  len (ExtractCode.read_file_lines t why p start_line (Some end_line))
  = Z.max 0 (Z.min end_line (len (Str.readlines text)) - Z.max 1 start_line + 1).
Proof.
  intros Ho He. unfold ExtractCode.read_file_lines. rewrite Ho.
  pose proof (len_nonneg (Str.readlines text)) as Hn.
  rewrite slice_length by lia. lia.
Qed.

Lemma enumerate_nth (A : Type) : forall (l : list A) a j,
  nth_error (enumerate a l) j = option_map (pair (a + Z.of_nat j)%Z) (nth_error l j).
Proof.
  induction l as [|x l IH]; intros a j.
  - destruct j; reflexivity.
  - destruct j as [|j].
    + cbn [enumerate nth_error option_map]. do 2 f_equal. lia.
    + cbn [enumerate nth_error]. rewrite IH. destruct (nth_error l j); [|reflexivity].
      cbn [option_map]. do 2 f_equal. lia.
Qed.

Lemma listing_nth first target lines j :
  nth_error (ExtractCode.listing first target lines) j
  = option_map (row_of target (first + Z.of_nat j)) (nth_error lines j).
Proof.
  unfold ExtractCode.listing. rewrite nth_error_map, enumerate_nth.
  destruct (nth_error lines j) as [l|]; [|reflexivity].
  cbn [option_map fst snd]. unfold row_of.
  replace (first + (0 + Z.of_nat j))%Z with (first + Z.of_nat j)%Z by lia. reflexivity.
Qed.

Lemma located_span_bounds lines line :
  let sp := locate_lines lines line in
  (1 <= snd (fst sp) <= snd sp + 1)%Z /\ (0 <= snd sp <= len lines)%Z
  /\ ((1 <= line <= len lines)%Z -> (snd (fst sp) <= line <= snd sp)%Z).
Proof.
  pose proof (len_nonneg lines) as Hn.
  destruct (locate_lines_spec lines line)
    as [[-> _] | (pre & d & mid & post & name & E & _ & _ & _ & Hin & ->)];
    cbn [fst snd].
  - lia.
  - pose proof (len_nonneg pre). pose proof (len_nonneg mid). pose proof (len_nonneg post).
    assert (len lines = len pre + (1 + (len mid + len post)))%Z
      by (rewrite E, len_app, len_cons, len_app; reflexivity).
    lia.
Qed.

(** X18. [read_file_lines] with both bounds returns the lines of the
    file numbered from [max 1 start_line] to [min end_line n], [n] being
    the number of lines, in order, and nothing when that range is empty; a
    file that cannot be read gives the single message line instead. *)
Theorem read_file_lines_gives_the_range t why p start_line end_line :
  (0 <= end_line)%Z ->
  match open_at t p with
  | Some text =>
      let lines := Str.readlines text in
      let first := Z.max 1 start_line in
      let last := Z.min end_line (len lines) in
      let got := ExtractCode.read_file_lines t why p start_line (Some end_line) in
      len got = Z.max 0 (last - first + 1)
      /\ (forall j, (first + Z.of_nat j <= last)%Z ->
                    nth_error got j = line_at lines (first + Z.of_nat j)
                    /\ nth_error got j <> None)
      /\ (forall l, In l got -> In l lines)
  | None =>
      ExtractCode.read_file_lines t why p start_line (Some end_line)
      = [("# Unable to read file: " ++ why p)%string]
  end.
Proof.
  intros He. destruct (open_at t p) as [text|] eqn:Ho.
  - cbv zeta. split; [apply (@read_lines_length t why p text start_line end_line Ho He)|]. split.
    + intros j Hj. rewrite (@read_lines_nth t why p text start_line end_line j Ho He).
      destruct (Z.leb_spec (Z.max 1 start_line + Z.of_nat j)
                           (Z.min end_line (len (Str.readlines text)))) as [_|]; [|lia].
      split; [reflexivity|]. unfold line_at.
      destruct (Z.ltb_spec (Z.max 1 start_line + Z.of_nat j) 1) as [|_]; [lia|].
      apply nth_error_Some. unfold len in Hj. lia.
    + intros l Hl. apply In_nth_error in Hl. destruct Hl as [j Hj].
      rewrite (@read_lines_nth t why p text start_line end_line j Ho He) in Hj.
      destruct (_ <=? _)%Z; [|discriminate]. unfold line_at in Hj.
      destruct (_ <? 1)%Z; [discriminate|]. eapply nth_error_In; eassumption.
  - unfold ExtractCode.read_file_lines. rewrite Ho. reflexivity.
Qed.

Lemma singleton_list (A : Type) (r : list A) x :
  len r = 1%Z -> nth_error r 0 = Some x -> r = [x].
Proof.
  unfold len. destruct r as [|y [|z r]]; simpl; intros Hl Hn; try lia.
  inversion Hn. reflexivity.
Qed.

Lemma empty_list (A : Type) (r : list A) : len r = 0%Z -> r = [].
Proof. unfold len. destruct r; simpl; [reflexivity|lia]. Qed.

(** X19. [read_file_lines] with the line number alone.  For a number
    between 1 and the number of lines it returns that line and no other;
    for 0 and for a number past the end it returns nothing; for a negative
    number [-k] the upper bound of the slice counts from the end, so that
    all lines but the last [k] come back. *)
Theorem single_line_read t why p text n :
  open_at t p = Some text ->
  let lines := Str.readlines text in
  let got := ExtractCode.read_file_lines t why p n None in
  ((1 <= n <= len lines)%Z -> exists l, line_at lines n = Some l /\ got = [l])
  /\ (n = 0%Z \/ (len lines < n)%Z -> got = [])
  /\ ((n < 0)%Z -> got = firstn (Z.to_nat (len lines + n)) lines).
Proof.
  intros Ho lines got.
  assert (Egot : got = ExtractCode.read_file_lines t why p n (Some n)) by reflexivity.
  pose proof (len_nonneg lines) as Hn.
  split; [|split].
  - intros Hin.
    assert (Hl : exists l, line_at lines n = Some l).
    { unfold line_at. destruct (Z.ltb_spec n 1) as [|_]; [lia|].
      destruct (nth_error lines (Z.to_nat (n - 1))) as [l|] eqn:E; [eauto|].
      apply nth_error_None in E. unfold len in Hin. lia. }
    destruct Hl as [l Hl]. exists l. split; [assumption|].
    apply singleton_list.
    + rewrite Egot, (@read_lines_length t why p text n n Ho) by lia. fold lines. lia.
    + rewrite Egot, (@read_lines_nth t why p text n n 0 Ho) by lia. fold lines.
      replace (Z.max 1 n + Z.of_nat 0)%Z with n by lia.
      destruct (Z.leb_spec n (Z.min n (len lines))) as [_|]; [assumption|lia].
  - intros Hout. apply empty_list.
    rewrite Egot, (@read_lines_length t why p text n n Ho) by lia. fold lines. lia.
  - intros Hneg. unfold got, ExtractCode.read_file_lines. rewrite Ho. fold lines.
    unfold ExtractCode.slice, ExtractCode.clamp.
    destruct (Z.ltb_spec (Z.max 0 (n - 1)) 0) as [|_]; [lia|].
    destruct (Z.ltb_spec (Z.min (len lines) n) 0) as [_|]; [|lia].
    replace (Z.to_nat (Z.min (Z.max 0 (n - 1)) (len lines))) with 0%nat by lia.
    cbn [skipn]. f_equal. lia.
Qed.

(** X20. [read_function_code] and the locator fit together.  For a file
    that can be read the name and the span are those the locator finds,
    the code returned is exactly the lines of the file from the first to
    the last line of the span, and a target line inside the file is one of
    them, at offset [line - start]. *)
Theorem function_code_is_the_located_span t why p text line :
  open_at t p = Some text ->
  let lines := Str.readlines text in
  exists name body func_start func_end,
    ExtractCode.read_function_code t why p line = (Some name, body, func_start, func_end)
    /\ locate_lines lines line = (name, func_start, func_end)
    /\ len body = (func_end - func_start + 1)%Z
    /\ (forall j, (Z.of_nat j < len body)%Z ->
                  nth_error body j = line_at lines (func_start + Z.of_nat j)
                  /\ nth_error body j <> None)
    /\ ((1 <= line <= len lines)%Z ->
        (func_start <= line <= func_end)%Z
        /\ nth_error body (Z.to_nat (line - func_start)) = line_at lines line).
Proof.
  intros Ho lines. pose proof (located_span_bounds lines line) as Hb.
  pose proof (located_name_nonempty lines line) as Hne.
  destruct (locate_lines lines line) as [[name s] e] eqn:Hloc. cbn [fst snd] in Hb, Hne.
  destruct Hb as (Hs & He & Hin).
  exists name, (ExtractCode.read_file_lines t why p s (Some e)), s, e.
  split.
  { unfold ExtractCode.read_function_code, ExtractCode.find_function_at_line.
    rewrite Ho. fold lines. rewrite Hloc, Hne. reflexivity. }
  split; [reflexivity|].
  assert (Hlen : len (ExtractCode.read_file_lines t why p s (Some e)) = (e - s + 1)%Z).
  { rewrite (@read_lines_length t why p text s e Ho) by lia. fold lines. lia. }
  assert (Hnth : forall j, (Z.of_nat j < e - s + 1)%Z ->
            nth_error (ExtractCode.read_file_lines t why p s (Some e)) j
            = line_at lines (s + Z.of_nat j)).
  { intros j Hj. rewrite (@read_lines_nth t why p text s e j Ho) by lia. fold lines.
    replace (Z.max 1 s) with s by lia.
    destruct (Z.leb_spec (s + Z.of_nat j) (Z.min e (len lines))) as [_|]; [reflexivity|lia]. }
  split; [exact Hlen|]. split.
  - intros j Hj. rewrite Hlen in Hj. split; [apply Hnth; assumption|].
    apply nth_error_Some. unfold len in Hlen. lia.
  - intros Hline. specialize (Hin Hline). split; [assumption|].
    rewrite Hnth by lia. f_equal. lia.
Qed.

Lemma line_at_some lines n :
  (1 <= n <= len lines)%Z -> exists l, line_at lines n = Some l.
Proof.
  intros Hin. unfold line_at. destruct (Z.ltb_spec n 1) as [|_]; [lia|].
  destruct (nth_error lines (Z.to_nat (n - 1))) as [l|] eqn:E; [eauto|].
  apply nth_error_None in E. unfold len in Hin. lia.
Qed.

Lemma line_at_bounds lines n l : line_at lines n = Some l -> (1 <= n <= len lines)%Z.
Proof.
  unfold line_at. destruct (Z.ltb_spec n 1) as [|H]; [discriminate|].
  intros E. assert (Hlt : (Z.to_nat (n - 1) < length lines)%nat)
    by (apply nth_error_Some; congruence).
  unfold len. lia.
Qed.

(** The rows printed for a range read from a file: row [j] is numbered
    [first + j] and shows line [max 1 start_line + j] of the file. *)
Lemma range_listing_rows t why p text first start_line end_line target row :
  open_at t p = Some text ->
  (0 <= end_line)%Z ->
  In row (ExtractCode.listing first target
            (ExtractCode.read_file_lines t why p start_line (Some end_line)))
  <-> exists j l,
        (Z.max 1 start_line + Z.of_nat j <= end_line)%Z
        /\ line_at (Str.readlines text) (Z.max 1 start_line + Z.of_nat j) = Some l
        /\ row = row_of target (first + Z.of_nat j) l.
Proof.
  intros Ho He. split.
  - intros H. apply In_nth_error in H. destruct H as [j Hj].
    rewrite listing_nth, (@read_lines_nth t why p text start_line end_line j Ho He) in Hj.
    destruct (Z.leb_spec (Z.max 1 start_line + Z.of_nat j)
                         (Z.min end_line (len (Str.readlines text)))) as [Hle|];
      [|discriminate].
    destruct (line_at (Str.readlines text) (Z.max 1 start_line + Z.of_nat j)) as [l|] eqn:E;
      [|discriminate].
    inversion Hj. exists j, l. split; [lia|]. auto.
  - intros (j & l & Hle & Hl & ->). apply nth_error_In with (n := j).
    rewrite listing_nth, (@read_lines_nth t why p text start_line end_line j Ho He).
    pose proof (line_at_bounds _ _ Hl) as Hb.
    destruct (Z.leb_spec (Z.max 1 start_line + Z.of_nat j)
                         (Z.min end_line (len (Str.readlines text)))) as [_|]; [|lia].
    rewrite Hl. reflexivity.
Qed.

(** X21. The function-level listing.  For a file that can be read, the
    rows are exactly the lines of the located span, each under its own
    line number and stripped of trailing white space, and a row is marked
    exactly when its number is the target line; when the target line is
    inside the file its row is there, and it is the marked one. *)
Theorem function_listing_shows_the_span t why p text target_line :
  open_at t p = Some text ->
  let lines := Str.readlines text in
  let rows := ExtractCode.function_listing t why p target_line in
  exists name func_start func_end,
    locate_lines lines target_line = (name, func_start, func_end)
    /\ (forall row,
          In row rows
          <-> exists l,
                (func_start <= ExtractCode.number row <= func_end)%Z
                /\ line_at lines (ExtractCode.number row) = Some l
                /\ row = row_of target_line (ExtractCode.number row) l)
    /\ (forall row, In row rows ->
          (ExtractCode.marked row = true <-> ExtractCode.number row = target_line))
    /\ ((1 <= target_line <= len lines)%Z ->
        exists l, line_at lines target_line = Some l
                  /\ In (row_of target_line target_line l) rows).
Proof.
  intros Ho lines rows. pose proof (located_span_bounds lines target_line) as Hb.
  pose proof (located_name_nonempty lines target_line) as Hne.
  destruct (locate_lines lines target_line) as [[name s] e] eqn:Hloc.
  cbn [fst snd] in Hb, Hne. destruct Hb as (Hs & He & Hin).
  exists name, s, e. split; [reflexivity|].
  assert (Erows : rows = ExtractCode.listing s target_line
                           (ExtractCode.read_file_lines t why p s (Some e))).
  { unfold rows, ExtractCode.function_listing, ExtractCode.read_function_code,
      ExtractCode.find_function_at_line.
    rewrite Ho. fold lines. rewrite Hloc, Hne. reflexivity. }
  assert (Hrows : forall row,
            In row rows
            <-> exists l,
                  (s <= ExtractCode.number row <= e)%Z
                  /\ line_at lines (ExtractCode.number row) = Some l
                  /\ row = row_of target_line (ExtractCode.number row) l).
  { intros row. rewrite Erows.
    rewrite (@range_listing_rows t why p text s s e target_line row Ho) by lia.
    fold lines. replace (Z.max 1 s) with s by lia. split.
    - intros (j & l & Hle & Hl & ->). exists l. cbn [row_of ExtractCode.number].
      split; [lia|]. auto.
    - intros (l & Hr & Hl & E). exists (Z.to_nat (ExtractCode.number row - s)), l.
      replace (s + Z.of_nat (Z.to_nat (ExtractCode.number row - s)))%Z
        with (ExtractCode.number row) by lia.
      split; [lia|]. auto. }
  split; [exact Hrows|]. split.
  - intros row Hrow. apply Hrows in Hrow. destruct Hrow as (l & _ & _ & E).
    rewrite E at 1. cbn [row_of ExtractCode.marked]. apply Z.eqb_eq.
  - intros Hline. destruct (line_at_some lines Hline) as [l Hl]. exists l.
    split; [assumption|]. apply Hrows. exists l. cbn [row_of ExtractCode.number].
    specialize (Hin Hline). split; [lia|]. auto.
Qed.

(** X22. The context listing away from the top of the file.  For a
    target line from 4 on, the rows are exactly the lines of the file
    numbered from three before to three after the target, as far as the
    file goes, each under its own line number, and the marked row is the
    target line. *)
Theorem context_listing_shows_neighbours t why p text target_line :
  open_at t p = Some text ->
  (4 <= target_line)%Z ->
  let lines := Str.readlines text in
  let rows := ExtractCode.context_listing t why p target_line in
  (forall row,
     In row rows
     <-> exists l,
           (target_line - 3 <= ExtractCode.number row <= target_line + 3)%Z
           /\ line_at lines (ExtractCode.number row) = Some l
           /\ row = row_of target_line (ExtractCode.number row) l)
  /\ (forall row, In row rows ->
        (ExtractCode.marked row = true <-> ExtractCode.number row = target_line)).
Proof.
  intros Ho Ht lines rows.
  assert (Hrows : forall row,
            In row rows
            <-> exists l,
                  (target_line - 3 <= ExtractCode.number row <= target_line + 3)%Z
                  /\ line_at lines (ExtractCode.number row) = Some l
                  /\ row = row_of target_line (ExtractCode.number row) l).
  { intros row. unfold rows, ExtractCode.context_listing.
    rewrite (@range_listing_rows t why p text (target_line - 3) (target_line - 3)
               (target_line + 3) target_line row Ho) by lia.
    fold lines. replace (Z.max 1 (target_line - 3)) with (target_line - 3)%Z by lia. split.
    - intros (j & l & Hle & Hl & ->). exists l. cbn [row_of ExtractCode.number].
      split; [lia|]. auto.
    - intros (l & Hr & Hl & E).
      exists (Z.to_nat (ExtractCode.number row - (target_line - 3))), l.
      replace (target_line - 3
               + Z.of_nat (Z.to_nat (ExtractCode.number row - (target_line - 3))))%Z
        with (ExtractCode.number row) by lia.
      split; [lia|]. auto. }
  split; [exact Hrows|].
  intros row Hrow. apply Hrows in Hrow. destruct Hrow as (l & _ & _ & E).
  rewrite E at 1. cbn [row_of ExtractCode.marked]. apply Z.eqb_eq.
Qed.

(** X23. The context listing near the top of the file.  For a target
    line below 4 the read is cut at line 1 but the numbering still starts
    at [target_line - 3]: every row shows the file line that lies
    [4 - target_line] below the number printed for it.  The row printed
    under the target's number, with the marker, shows line 4 of the file,
    and in a file of fewer than four lines no row is marked. *)
Theorem context_listing_near_top_is_shifted t why p text target_line :
  open_at t p = Some text ->
  (1 <= target_line <= 3)%Z ->
  let lines := Str.readlines text in
  let rows := ExtractCode.context_listing t why p target_line in
  let shift := (4 - target_line)%Z in
  (forall row,
     In row rows
     <-> exists l,
           (target_line - 3 <= ExtractCode.number row <= target_line + 3 - shift)%Z
           /\ line_at lines (ExtractCode.number row + shift) = Some l
           /\ row = row_of target_line (ExtractCode.number row) l)
  /\ (forall row, In row rows -> ExtractCode.marked row = true ->
        ExtractCode.number row = target_line
        /\ exists l, line_at lines 4 = Some l /\ ExtractCode.shown row = ExtractCode.rstrip l)
  /\ ((len lines < 4)%Z -> forall row, In row rows -> ExtractCode.marked row = false).
Proof.
  intros Ho Ht lines rows shift.
  assert (Hrows : forall row,
            In row rows
            <-> exists l,
                  (target_line - 3 <= ExtractCode.number row <= target_line + 3 - shift)%Z
                  /\ line_at lines (ExtractCode.number row + shift) = Some l
                  /\ row = row_of target_line (ExtractCode.number row) l).
  { intros row. unfold rows, ExtractCode.context_listing.
    rewrite (@range_listing_rows t why p text (target_line - 3) (target_line - 3)
               (target_line + 3) target_line row Ho) by lia.
    fold lines. replace (Z.max 1 (target_line - 3)) with 1%Z by lia. unfold shift. split.
    - intros (j & l & Hle & Hl & ->). exists l. cbn [row_of ExtractCode.number].
      split; [lia|].
      replace (target_line - 3 + Z.of_nat j + (4 - target_line))%Z
        with (1 + Z.of_nat j)%Z by lia. auto.
    - intros (l & Hr & Hl & E).
      exists (Z.to_nat (ExtractCode.number row - (target_line - 3))), l.
      replace (1 + Z.of_nat (Z.to_nat (ExtractCode.number row - (target_line - 3))))%Z
        with (ExtractCode.number row + (4 - target_line))%Z by lia.
      replace (target_line - 3
               + Z.of_nat (Z.to_nat (ExtractCode.number row - (target_line - 3))))%Z
        with (ExtractCode.number row) by lia.
      split; [lia|]. auto. }
  assert (Hmark : forall row, In row rows -> ExtractCode.marked row = true ->
            ExtractCode.number row = target_line
            /\ exists l, line_at lines 4 = Some l
                         /\ ExtractCode.shown row = ExtractCode.rstrip l).
  { intros row Hrow Hm. apply Hrows in Hrow. destruct Hrow as (l & _ & Hl & E).
    assert (Hnum : ExtractCode.number row = target_line).
    { rewrite E in Hm. cbn [row_of ExtractCode.marked] in Hm. apply Z.eqb_eq in Hm.
      exact Hm. }
    split; [exact Hnum|]. exists l. split.
    - rewrite <- Hl. f_equal. unfold shift. lia.
    - rewrite E. reflexivity. }
  split; [exact Hrows|]. split; [exact Hmark|].
  intros Hshort row Hrow. destruct (ExtractCode.marked row) eqn:Hm; [|reflexivity].
  destruct (Hmark row Hrow Hm) as (_ & l & Hl & _).
  apply line_at_bounds in Hl. lia.
Qed.

(* ------------------------------------------------------------------------- *)
(** ** The theorems at work on the sample trees *)

Local Open Scope string_scope.

Lemma sample_readable (files : list (string * option string)) p text :
  Dict.lookup p files = Some (Some text) -> readable (Sample.tree files) p text.
Proof.
  intros H. unfold readable, Sample.tree, Dict.mem. simpl. rewrite H. auto.
Qed.

(** Line 3 of [lib.php] lies in [a], which ends before [b] starts. *)
Lemma locate_inside_function_witness :
  readable Sample.lib "lib.php" Sample.lib_php
  /\ find_function_at_line Sample.lib "lib.php" 3 = Ret (Some ("a", 2%Z, 3%Z))
  /\ (2 <= 3 <= 3)%Z.
Proof.
  assert (Hr : readable Sample.lib "lib.php" Sample.lib_php)
    by (apply sample_readable; reflexivity).
  split; [exact Hr|].
  refine (@locate_inside_function Sample.lib "lib.php" Sample.lib_php
            ["<?php" ++ Sample.nl] ("function a() {" ++ Sample.nl)
            ["}" ++ Sample.nl; "function b() {" ++ Sample.nl;
             "  return 1;" ++ Sample.nl; "}" ++ Sample.nl]
            "a" 3%Z 3%Z Hr _ _ _ _ _).
  - vm_compute. reflexivity.
  - vm_compute. reflexivity.
  - vm_compute. discriminate.
  - left. exists ["}" ++ Sample.nl], ("function b() {" ++ Sample.nl),
      ["  return 1;" ++ Sample.nl; "}" ++ Sample.nl].
    split; [reflexivity|]. split; [|split].
    + repeat constructor.
    + unfold is_def. vm_compute. discriminate.
    + reflexivity.
  - vm_compute. discriminate.
Defined.

(** Line 1 of [lib.php] lies before the first definition. *)
Lemma locate_global_witness :
  readable Sample.lib "lib.php" Sample.lib_php
  /\ find_function_at_line Sample.lib "lib.php" 1 = Ret (Some ("global", 1%Z, 6%Z)).
Proof.
  assert (Hr : readable Sample.lib "lib.php" Sample.lib_php)
    by (apply sample_readable; reflexivity).
  split; [exact Hr|].
  refine (@locate_global Sample.lib "lib.php" Sample.lib_php 1%Z Hr _).
  right. exists ["<?php" ++ Sample.nl], ("function a() {" ++ Sample.nl),
    ["}" ++ Sample.nl; "function b() {" ++ Sample.nl;
     "  return 1;" ++ Sample.nl; "}" ++ Sample.nl].
  split; [vm_compute; reflexivity|]. split; [|split].
  - repeat constructor.
  - unfold is_def. vm_compute. discriminate.
  - vm_compute. reflexivity.
Defined.

(** The empty file: the synthetic span is (1, 0). *)
Lemma span_bounds_witness :
  readable Sample.empty "empty.php" EmptyString
  /\ exists name s e,
       find_function_at_line Sample.empty "empty.php" 7 = Ret (Some (name, s, e))
       /\ (name, s, e) = ("global", 1%Z, 0%Z).
Proof.
  assert (Hr : readable Sample.empty "empty.php" EmptyString)
    by (apply sample_readable; reflexivity).
  split; [exact Hr|].
  destruct (@span_bounds Sample.empty "empty.php" EmptyString 7%Z Hr)
    as (name & s & e & Hf & _ & _ & Hempty).
  exists name, s, e. split; [exact Hf|]. apply Hempty. reflexivity.
Defined.

(** C8, refuted as stated: the span returned for a file with zero lines
    starts at 1 and ends at 0. *)
Lemma span_of_empty_file_counterexample :
  ~ (forall t p text line name s e,
        readable t p text ->
        find_function_at_line t p line = Ret (Some (name, s, e)) ->
        (s <= e)%Z).
Proof.
  intros H.
  assert (Hr : readable Sample.empty "empty.php" EmptyString)
    by (apply sample_readable; reflexivity).
  specialize (H Sample.empty "empty.php" EmptyString 1%Z "global" 1%Z 0%Z Hr eq_refl).
  lia.
Qed.






(** Scenario 2 on a machine without Joern. *)
Lemma joern_failure_escapes_witness :
  exists doc,
    written (main Sample.substring_search Sample.scenario2 Sample.no_joern
                  Sample.inside_foo [] []) = Some doc
    /\ r_joern_usages doc = []
    /\ outcome (main Sample.substring_search Sample.scenario2 Sample.no_joern
                     Sample.inside_foo [] [])
       = Raise (UnboundLocalError "cpg_file").
Proof.
  refine (@joern_failure_escapes Sample.substring_search Sample.scenario2 Sample.no_joern
            Sample.inside_foo [] [] ("foo", 5%Z, 7%Z)
            (RuntimeError "Joern directory not found") _ _ _ _).
  - vm_compute. reflexivity.
  - reflexivity.
  - left. vm_compute. reflexivity.
  - reflexivity.
Defined.



(** [$obj->save($x);] is recorded twice. *)
Lemma specific_call_recorded_twice_witness :
  exists calls,
    extract_function_calls Sample.saves "save.php" = Ret calls
    /\ (2 <= length (filter (same_call "save" 2) calls))%nat.
Proof.
  assert (Hr : readable Sample.saves "save.php" Sample.save_php)
    by (apply sample_readable; reflexivity).
  destruct (@specific_call_recorded_twice Sample.saves "save.php" Sample.save_php 1
              ("$obj->save($x);" ++ Sample.nl) member_call
              (MRes (Str.chars "->save(") (Some (Str.chars "save"))
                    (Str.chars ("$x);" ++ Sample.nl))))
    as (calls & Hret & _ & _ & Hcount).
  - exact Hr.
  - reflexivity.
  - simpl. auto.
  - vm_compute. left. reflexivity.
  - vm_compute. reflexivity.
  - exists calls. split; [exact Hret | exact Hcount].
Defined.

(* ------------------------------------------------------------------------- *)
(** ** The further theorems at work *)

(** Line 99 of the six lines of [lib.php]. *)
Lemma line_outside_file_is_global_witness :
  readable Sample.lib "lib.php" Sample.lib_php
  /\ find_function_at_line Sample.lib "lib.php" 99 = Ret (Some ("global", 1%Z, 6%Z)).
Proof.
  assert (Hr : readable Sample.lib "lib.php" Sample.lib_php)
    by (apply sample_readable; reflexivity).
  split; [exact Hr|].
  rewrite (@line_outside_file_is_global Sample.lib "lib.php" Sample.lib_php 99%Z Hr).
  - vm_compute. reflexivity.
  - right. vm_compute. reflexivity.
Defined.

(** Line 5 of [lib.php]: the nearest definition above is that of [b]. *)
Lemma locator_returns_nearest_definition_witness :
  readable Sample.lib "lib.php" Sample.lib_php
  /\ exists pre d mid post,
       Str.readlines Sample.lib_php = (pre ++ d :: mid ++ post)%list
       /\ def_name d = Some "b"
       /\ Forall no_def mid
       /\ find_function_at_line Sample.lib "lib.php" 5 = Ret (Some ("b", 4%Z, 6%Z)).
Proof.
  assert (Hr : readable Sample.lib "lib.php" Sample.lib_php)
    by (apply sample_readable; reflexivity).
  split; [exact Hr|].
  assert (Hf : find_function_at_line Sample.lib "lib.php" 5 = Ret (Some ("b", 4%Z, 6%Z)))
    by (vm_compute; reflexivity).
  destruct (@locator_returns_nearest_definition Sample.lib "lib.php" Sample.lib_php 5%Z Hr)
    as [[Hg _] | (pre & d & mid & post & name & E1 & E2 & E3 & _ & _ & E6)].
  - rewrite Hf in Hg. vm_compute in Hg. discriminate.
  - rewrite Hf in E6. injection E6 as Hname _ _. subst name.
    exists pre, d, mid, post. auto.
Defined.

(** The records of [save.php] come in line order. *)
Lemma extracted_calls_in_line_order_witness :
  readable Sample.saves "save.php" Sample.save_php
  /\ exists calls,
       extract_function_calls Sample.saves "save.php" = Ret calls
       /\ StronglySorted Z.le (map call_line calls).
Proof.
  assert (Hr : readable Sample.saves "save.php" Sample.save_php)
    by (apply sample_readable; reflexivity).
  split; [exact Hr|].
  destruct (@extracted_calls_in_line_order Sample.saves "save.php" Sample.save_php Hr)
    as (calls & Hret & Hsorted & _).
  exists calls. auto.
Defined.




(** Scenario 2: the only 'calls' chain is the header of [foo] taken for
    a call of [foo]. *)
Lemma calls_chain_per_call_and_definition_witness :
  exists doc,
    written (main Sample.substring_search Sample.scenario2 Sample.no_joern
                  Sample.inside_foo [] []) = Some doc
    /\ calls_of (r_function_chains doc)
       = [ ({| cg_name := "foo"; cg_file := "a.php"; cg_call_line := 5;
               cg_call_code := "function foo($x) {" |},
            {| cd_name := "foo"; cd_file := "a.php"; cd_definition_line := 5;
               cd_definition_code := "function foo($x) {" |}) ].
Proof.
  destruct (written (main Sample.substring_search Sample.scenario2 Sample.no_joern
                          Sample.inside_foo [] [])) as [doc|] eqn:Hw;
    [|vm_compute in Hw; discriminate].
  exists doc. split; [reflexivity|].
  destruct (@calls_chain_per_call_and_definition
              Sample.substring_search Sample.scenario2 Sample.no_joern
              Sample.inside_foo [] [] doc Hw) as [Hall _].
  rewrite Hall. vm_compute in Hw. injection Hw as <-. vm_compute. reflexivity.
Defined.


(** Of the five lines of the patterns file two carry a pattern. *)
Lemma patterns_file_keeps_plain_lines_witness :
  load_patterns_from_file Fixture.disk "patterns.txt" = Ret ["$_GET"; "mysql_query"].
Proof.
  destruct (@patterns_file_keeps_plain_lines Fixture.disk "patterns.txt") as [H _].
  - intros e He. vm_compute in He. discriminate.
  - rewrite H. vm_compute. reflexivity.
Defined.

(** One enabled source out of three items, and two enabled sinks. *)
Lemma config_yields_enabled_patterns_witness :
  load_yaml_config Fixture.disk "config.yaml"
  = ([Yaml.Str "\$_GET"], [Yaml.Str "echo"; Yaml.Str "mysql_query"]).
Proof.
  rewrite (@config_yields_enabled_patterns Fixture.disk "config.yaml" Fixture.config);
    reflexivity.
Defined.

(** The enabled sink without pattern costs the sources as well. *)
Lemma broken_item_discards_everything_witness :
  load_yaml_config Fixture.disk "broken.yaml" = ([], []).
Proof.
  apply (@broken_item_discards_everything Fixture.disk "broken.yaml" Fixture.broken_config
           "sinks"
           [("output", Yaml.Seq [Fixture.item "echo" true;
                                 Yaml.Map [("enabled", Yaml.Bool true)]])]
           "output"
           [Fixture.item "echo" true; Yaml.Map [("enabled", Yaml.Bool true)]]
           (Yaml.Map [("enabled", Yaml.Bool true)])).
  - reflexivity.
  - reflexivity.
  - right. reflexivity.
  - reflexivity.
  - left. reflexivity.
  - right. left. reflexivity.
  - reflexivity.
Defined.

(** Lines 2 to 3 of [lib.php]. *)
Lemma read_file_lines_gives_the_range_witness :
  (0 <= 3)%Z
  /\ len (ExtractCode.read_file_lines Sample.lib Fixture.why "lib.php" 2 (Some 3%Z)) = 2%Z.
Proof.
  assert (H : (0 <= 3)%Z) by (vm_compute; discriminate).
  split; [exact H|].
  pose proof (@read_file_lines_gives_the_range Sample.lib Fixture.why "lib.php" 2%Z 3%Z H)
    as R.
  change (open_at Sample.lib "lib.php") with (Some Sample.lib_php) in R.
  cbv beta iota zeta in R. destruct R as [R _]. rewrite R. vm_compute. reflexivity.
Defined.

(** Line 4 of [lib.php], read alone. *)
Lemma single_line_read_witness :
  ExtractCode.read_file_lines Sample.lib Fixture.why "lib.php" 4 None
  = ["function b() {" ++ Sample.nl].
Proof.
  destruct (@single_line_read Sample.lib Fixture.why "lib.php" Sample.lib_php 4%Z eq_refl)
    as [H _].
  destruct H as [l [Hl Hgot]].
  - split; vm_compute; discriminate.
  - rewrite Hgot. vm_compute in Hl. injection Hl as <-. reflexivity.
Defined.

(** The code of [b], located from line 5 of [lib.php]. *)
Lemma function_code_is_the_located_span_witness :
  exists body,
    ExtractCode.read_function_code Sample.lib Fixture.why "lib.php" 5
    = (Some "b", body, 4%Z, 6%Z)
    /\ len body = 3%Z.
Proof.
  destruct (@function_code_is_the_located_span Sample.lib Fixture.why "lib.php"
              Sample.lib_php 5%Z eq_refl)
    as (name & body & s & e & H1 & H2 & H3 & _).
  vm_compute in H2. injection H2 as <- <- <-.
  exists body. split; [exact H1 | rewrite H3; reflexivity].
Defined.

(** The function-level listing for line 5 of [lib.php] marks line 5. *)
Lemma function_listing_shows_the_span_witness :
  In (row_of 5 5 ("  return 1;" ++ Sample.nl))
     (ExtractCode.function_listing Sample.lib Fixture.why "lib.php" 5).
Proof.
  destruct (@function_listing_shows_the_span Sample.lib Fixture.why "lib.php"
              Sample.lib_php 5%Z eq_refl)
    as (name & s & e & _ & _ & _ & H).
  destruct H as [l [Hl Hin]].
  - split; vm_compute; discriminate.
  - vm_compute in Hl. injection Hl as <-. exact Hin.
Defined.

(** The context of line 4 of [lib.php]: the marked row is line 4. *)
Lemma context_listing_shows_neighbours_witness :
  (4 <= 4)%Z
  /\ In (row_of 4 4 ("function b() {" ++ Sample.nl))
        (ExtractCode.context_listing Sample.lib Fixture.why "lib.php" 4).
Proof.
  assert (H : (4 <= 4)%Z) by (vm_compute; discriminate).
  split; [exact H|].
  destruct (@context_listing_shows_neighbours Sample.lib Fixture.why "lib.php"
              Sample.lib_php 4%Z eq_refl H) as [Hrows _].
  apply Hrows. exists ("function b() {" ++ Sample.nl).
  split; [split; vm_compute; discriminate|]. split; reflexivity.
Defined.

(** The context of line 1 of [lib.php]: the row printed as line 1, with
    the marker, shows line 4. *)
Lemma context_listing_near_top_is_shifted_witness :
  (1 <= 1 <= 3)%Z
  /\ In (row_of 1 1 ("function b() {" ++ Sample.nl))
        (ExtractCode.context_listing Sample.lib Fixture.why "lib.php" 1).
Proof.
  assert (H : (1 <= 1 <= 3)%Z) by (split; vm_compute; discriminate).
  split; [exact H|].
  destruct (@context_listing_near_top_is_shifted Sample.lib Fixture.why "lib.php"
              Sample.lib_php 1%Z eq_refl H) as [Hrows _].
  apply Hrows. exists ("function b() {" ++ Sample.nl).
  split; [split; vm_compute; discriminate|]. split; reflexivity.
Defined.
